(** * Banhammer-lite: the detection engine, embedded and verified

    A shallow embedding of [core/tracker.py], [core/panel_api.py] and the
    detection part of [server.py].

    Conventions of the embedding:
    - a [datetime] is the integer number of microseconds it denotes
      (unbounded [Z]); [timedelta(seconds=n)] is [n * 1000000];
      [(a - b).total_seconds() >= n] for an integer [n] is compared on
      microseconds; the embedding holds where this arithmetic stays within
      Python's range of dates: the [OverflowError] of a subtraction that
      leaves the years 1 to 9999 is not part of it;
    - a Python [dict] keyed by strings is a [gmap string _], a [set] of
      strings is a [gset string];
    - Python [int] counters are [Z];
    - an operation that can raise yields an [outcome] carrying the state
      reached when the exception left the function. *)

From Stdlib Require Import ZArith List String Ascii Sorted Lia.
From stdpp Require Import base option list gmap sets strings.

Local Open Scope string_scope.
Local Open Scope list_scope.
Local Open Scope Z_scope.

(** ** Time *)

Definition timedelta (seconds : Z) : Z := seconds * 1000000.

(** ** core/parser.py *)

Record LogEntry := mkLogEntry {
  timestamp : Z;
  source_ip : string;
  protocol : string;
  destination : string;
  destination_port : Z;
  action : string;
  email : string;
  raw_line : string
}.

(** [c in s] for a character [c]. *)
Fixpoint has_char (c : ascii) (s : string) : bool :=
  match s with
  | EmptyString => false
  | String a rest => if decide (a = c) then true else has_char c rest
  end.

(** ** core/tracker.py *)

(** [str.split(sep)] for a one-character separator. *)
Fixpoint split_on (sep : ascii) (s : string) : list string :=
  match s with
  | EmptyString => [EmptyString]
  | String c rest =>
      if decide (c = sep) then EmptyString :: split_on sep rest
      else match split_on sep rest with
           | [] => [String c EmptyString]
           | part :: parts => String c part :: parts
           end
  end.

Definition get_subnet_24 (ip : string) : string :=
  let parts := split_on "."%char ip in
  if decide (length parts = 4%nat) then String.concat "." (take 3 parts)
  else ip.

Definition group_ips_by_subnet (ips : gset string) : gset string :=
  set_map get_subnet_24 ips.

Record RequestLog := mkRequestLog {
  rl_timestamp : Z;
  rl_source_ip : string;
  rl_destination : string;
  rl_dest_port : Z;
  rl_action : string;
  rl_node_name : string
}.

Module IPStats.
Record t := mk {
  last_seen : Z;
  request_count : Z
}.
End IPStats.

Module UserInfo.

Record t := mk {
  email : string;
  ip_stats : gmap string IPStats.t;
  ip_timestamps : gmap string Z;
  request_count : Z;
  blocked_count : Z;
  last_seen : option Z;
  first_seen : option Z;
  recent_requests : list RequestLog
}.

(** The dataclass field [_max_requests], never reassigned. *)
Definition _max_requests : nat := 100.

(** [UserInfo(email=email)] *)
Definition new (email : string) : t :=
  mk email ∅ ∅ 0 0 None None [].

Definition add_ip (ip : string) (ts : Z) (u : t) : t :=
  let stats :=
    match ip_stats u !! ip with
    | Some s => IPStats.mk ts (IPStats.request_count s + 1)
    | None => IPStats.mk ts 1
    end in
  mk (email u) (<[ip := stats]> (ip_stats u)) (<[ip := ts]> (ip_timestamps u))
     (request_count u) (blocked_count u) (last_seen u) (first_seen u)
     (recent_requests u).

(** [l[-n:]] for [n > 0]. *)
Definition last_n {A} (n : nat) (l : list A) : list A :=
  drop (length l - n)%nat l.

Definition add_request (ts : Z) (src dst : string) (port : Z)
    (act node_name : string) (u : t) : t :=
  let appended := recent_requests u ++ [mkRequestLog ts src dst port act node_name] in
  let kept :=
    if decide (_max_requests < length appended)%nat
    then last_n _max_requests appended else appended in
  mk (email u) (ip_stats u) (ip_timestamps u) (request_count u)
     (blocked_count u) (last_seen u) (first_seen u) kept.

(** The test of the loop of [get_recent_ips]. *)
Definition is_recent (cutoff min_requests : Z) (kv : string * IPStats.t) : Prop :=
  cutoff ≤ IPStats.last_seen kv.2 ∧ min_requests ≤ IPStats.request_count kv.2.

Global Instance is_recent_dec cutoff m kv : Decision (is_recent cutoff m kv).
Proof. unfold is_recent. apply _. Defined.

Definition get_recent_ips (window_seconds min_requests : Z) (u : t) : gset string :=
  match last_seen u with
  | None => ∅
  | Some ls =>
      let cutoff := ls - timedelta window_seconds in
      dom (filter (is_recent cutoff min_requests) (ip_stats u))
  end.

Definition is_stale (cutoff : Z) (kv : string * IPStats.t) : Prop :=
  IPStats.last_seen kv.2 < cutoff.

Global Instance is_stale_dec cutoff kv : Decision (is_stale cutoff kv).
Proof. unfold is_stale. apply _. Defined.

(** Returns the updated user and the number of removed addresses. *)
Definition cleanup_old_ips (window_seconds : Z) (u : t) : t * nat :=
  match last_seen u with
  | None => (u, 0%nat)
  | Some ls =>
      let cutoff := ls - timedelta window_seconds in
      let ips_to_remove := dom (filter (is_stale cutoff) (ip_stats u)) in
      (mk (email u)
          (filter (λ kv, kv.1 ∉ ips_to_remove) (ip_stats u))
          (filter (λ kv, kv.1 ∉ ips_to_remove) (ip_timestamps u))
          (request_count u) (blocked_count u) (last_seen u) (first_seen u)
          (recent_requests u),
       size ips_to_remove)
  end.

Definition recent_ip_count (window_seconds min_requests : Z)
    (group_by_subnet : bool) (u : t) : nat :=
  let ips := get_recent_ips window_seconds min_requests u in
  if group_by_subnet then size (group_ips_by_subnet ips) else size ips.

(** [get_recent_ips_with_counts]: address -> request count, for the
    addresses seen in the window. *)
Definition seen_since (cutoff : Z) (kv : string * IPStats.t) : Prop :=
  cutoff ≤ IPStats.last_seen kv.2.

Global Instance seen_since_dec cutoff kv : Decision (seen_since cutoff kv).
Proof. unfold seen_since. apply _. Defined.

Definition get_recent_ips_with_counts (window_seconds : Z) (u : t)
    : gmap string Z :=
  match last_seen u with
  | None => ∅
  | Some ls =>
      let cutoff := ls - timedelta window_seconds in
      IPStats.request_count <$> filter (seen_since cutoff) (ip_stats u)
  end.

(** The property [all_ips]. *)
Definition all_ips (u : t) : gset string := dom (ip_stats u).

Definition get_recent_subnets (window_seconds min_requests : Z) (u : t)
    : gset string :=
  group_ips_by_subnet (get_recent_ips window_seconds min_requests u).

Definition has_multiple_recent_ips (window_seconds min_ips min_requests : Z)
    (group_by_subnet : bool) (u : t) : bool :=
  bool_decide
    (min_ips ≤ Z.of_nat (recent_ip_count window_seconds min_requests group_by_subnet u)).

End UserInfo.

Module UserTracker.

Record t := mk {
  _users : gmap string UserInfo.t;
  _total_requests : Z;
  _total_blocked : Z;
  window_seconds : Z;
  min_ips_for_alert : Z;
  max_age_seconds : Z;
  _latest_timestamp : option Z
}.

(** [UserTracker(window_seconds=..., max_age_seconds=...)] *)
Definition new (window max_age : Z) : t :=
  mk ∅ 0 0 window 3 max_age None.

Definition process_entry (entry : LogEntry) (node_name : string) (tr : t)
    : t * UserInfo.t :=
  let em := email entry in
  let user0 := default (UserInfo.new em) (_users tr !! em) in
  let user1 := UserInfo.add_ip (source_ip entry) (timestamp entry) user0 in
  let user2 :=
    UserInfo.add_request (timestamp entry) (source_ip entry)
      (destination entry) (destination_port entry) (action entry) node_name
      (UserInfo.mk (UserInfo.email user1) (UserInfo.ip_stats user1)
         (UserInfo.ip_timestamps user1) (UserInfo.request_count user1 + 1)
         (UserInfo.blocked_count user1) (UserInfo.last_seen user1)
         (UserInfo.first_seen user1) (UserInfo.recent_requests user1)) in
  let fs :=
    match UserInfo.first_seen user2 with
    | None => Some (timestamp entry)
    | Some f => Some f
    end in
  let blocked := bool_decide (action entry = "BLOCK") in
  let user3 :=
    UserInfo.mk (UserInfo.email user2) (UserInfo.ip_stats user2)
      (UserInfo.ip_timestamps user2) (UserInfo.request_count user2)
      (if blocked then UserInfo.blocked_count user2 + 1
       else UserInfo.blocked_count user2)
      (Some (timestamp entry)) fs (UserInfo.recent_requests user2) in
  let latest :=
    match _latest_timestamp tr with
    | None => Some (timestamp entry)
    | Some lt => if decide (lt < timestamp entry) then Some (timestamp entry)
                 else Some lt
    end in
  (mk (<[em := user3]> (_users tr))
      (_total_requests tr + 1)
      (if blocked then _total_blocked tr + 1 else _total_blocked tr)
      (window_seconds tr) (min_ips_for_alert tr) (max_age_seconds tr) latest,
   user3).

(** The test that puts a user on [users_to_remove]. *)
Definition is_expired (cutoff : Z) (u : UserInfo.t) : Prop :=
  match UserInfo.last_seen u with
  | Some ls => ls < cutoff
  | None => False
  end.

Global Instance is_expired_dec cutoff u : Decision (is_expired cutoff u).
Proof. unfold is_expired. destruct (UserInfo.last_seen u); apply _. Defined.

(** Returns the updated tracker and the number of removed users. *)
Definition cleanup_old_data (tr : t) : t * nat :=
  match _latest_timestamp tr with
  | None => (tr, 0%nat)
  | Some lt =>
      let cutoff := lt - timedelta (max_age_seconds tr) in
      let survivors := filter (λ kv, ¬ is_expired cutoff kv.2) (_users tr) in
      (mk ((λ u, (UserInfo.cleanup_old_ips (window_seconds tr) u).1) <$> survivors)
          (_total_requests tr) (_total_blocked tr) (window_seconds tr)
          (min_ips_for_alert tr) (max_age_seconds tr) (_latest_timestamp tr),
       size (filter (λ kv, is_expired cutoff kv.2) (_users tr)))
  end.

Definition get_user (em : string) (tr : t) : option UserInfo.t :=
  _users tr !! em.

(** A tracker operation, and the run of a sequence of them. *)
Inductive op :=
| ProcessEntry (entry : LogEntry) (node_name : string)
| CleanupOldData.

Definition apply_op (tr : t) (o : op) : t :=
  match o with
  | ProcessEntry entry node_name => (process_entry entry node_name tr).1
  | CleanupOldData => (cleanup_old_data tr).1
  end.

Definition run (ops : list op) (tr : t) : t := fold_left apply_op ops tr.

(** The entries of a sequence of operations, in processing order. *)
Definition entries_of (ops : list op) : list LogEntry :=
  omap (λ o, match o with ProcessEntry e _ => Some e | CleanupOldData => None end) ops.

(** [get_users_with_multiple_ips], as the set of their keys. *)
Definition get_users_with_multiple_ips (tr : t) : gmap string UserInfo.t :=
  filter (λ kv, UserInfo.has_multiple_recent_ips (window_seconds tr)
                  (min_ips_for_alert tr) 1 false kv.2 = true) (_users tr).

(** [ip_to_emails[ip].add(user.email)] on a [defaultdict(set)]. *)
Definition add_email (em ip : string) (acc : gmap string (gset string))
    : gmap string (gset string) :=
  <[ip := default ∅ (acc !! ip) ∪ {[em]}]> acc.

(** The dictionary [ip_to_emails] built by the loops of [get_shared_ips]. *)
Definition ip_to_emails (tr : t) : gmap string (gset string) :=
  map_fold
    (λ _ user acc,
       set_fold (add_email (UserInfo.email user)) acc
         (UserInfo.get_recent_ips (window_seconds tr) 1 user))
    ∅ (_users tr).

Definition get_shared_ips (tr : t) : gmap string (gset string) :=
  filter (λ kv, (1 < size kv.2)%nat) (ip_to_emails tr).

(** [clear]: the users and the totals, not the latest timestamp. *)
Definition clear (tr : t) : t :=
  mk ∅ 0 0 (window_seconds tr) (min_ips_for_alert tr) (max_age_seconds tr)
     (_latest_timestamp tr).

End UserTracker.

(** ** core/panel_api.py *)

Module PanelAPI.

(** One value of the [_users] cache.  [limit] is [None] when the panel
    reports [hwidDeviceLimit] as null, [telegram_id] when it reports no
    [telegramId]. *)
Record user := mkUser {
  limit : option Z;
  telegram_id : option string;
  description : string;
  username : string;
  short_uuid : string
}.

Record t := mk {
  _users : gmap string user;
  _loaded : bool;
  _last_load_time : Z;
  _load_interval : Z
}.

(** [PanelAPI()] *)
Definition new : t := mk ∅ false 0 300.

Definition get_limit (user_id : string) (p : t) : option Z :=
  match _users p !! user_id with
  | Some u => limit u
  | None => None
  end.

Definition get_user_info (user_id : string) (p : t) : option user :=
  _users p !! user_id.

Definition needs_reload (time_now : Z) (p : t) : bool :=
  if _loaded p then bool_decide (_load_interval p < time_now - _last_load_time p)
  else true.

Definition is_loaded (p : t) : bool := _loaded p.

Definition user_count (p : t) : nat := size (_users p).

(** *** Loading *)

(** One element of the [users] array of a page, as [load_all_users_sync]
    reads it: [raw_id] is [str(user.get('id', ''))]; [raw_limit] is [None]
    when the key [hwidDeviceLimit] is absent, [Some None] when it is null. *)
Record raw_user := mkRaw {
  raw_id : string;
  raw_limit : option (option Z);
  raw_telegram_id : option string;
  raw_description : string;
  raw_username : string;
  raw_short_uuid : string
}.

(** What one [requests.get] of a page gives: an exception (also one of
    [resp.json()]), or a status with the users of the decoded body. *)
Inductive page_reply :=
| RequestFails
| Reply (status : Z) (users : list raw_user).

Definition page_size : nat := 500.

(** The [while True] loop, with the panel as the function [fetch] of the
    offset [start]; [None] when [fuel] iterations do not end it. *)
Fixpoint fetch_pages (fetch : nat → page_reply) (fuel : nat) (start : nat)
    (all_users : list raw_user) : option (list raw_user) :=
  match fuel with
  | O => None
  | S fuel' =>
      match fetch start with
      | RequestFails => Some all_users
      | Reply status users =>
          if decide (status ≠ 200) then Some all_users
          else
            match users with
            | [] => Some all_users
            | _ =>
                let all_users' := all_users ++ users in
                if decide (length users < page_size)%nat then Some all_users'
                else fetch_pages fetch fuel' (start + page_size)%nat all_users'
            end
      end
  end.

(** The cache entry made of a user of a page. *)
Definition user_of_raw (r : raw_user) : user :=
  mkUser (match raw_limit r with None => Some 1 | Some v => v end)
         (raw_telegram_id r) (raw_description r) (raw_username r)
         (raw_short_uuid r).

(** The body of the loop that fills the cache. *)
Definition store_user (cache : gmap string user) (r : raw_user)
    : gmap string user :=
  if decide (raw_id r = EmptyString) then cache
  else <[raw_id r := user_of_raw r]> cache.

(** Returns the reloaded directory and the number of its users; [time_now]
    is what [time.time()] reads. *)
Definition load_all_users_sync (fetch : nat → page_reply) (fuel : nat)
    (time_now : Z) (p : t) : option (t * nat) :=
  match fetch_pages fetch fuel 0 [] with
  | None => None
  | Some all_users =>
      let users := foldl store_user ∅ all_users in
      Some (mk users true time_now (_load_interval p), size users)
  end.

End PanelAPI.

(** ** core/tcp_server.py: the framing of a received line *)

Module TCPLogServer.







End TCPLogServer.


(** ** server.py: the detection engine *)

(** What a call leaves behind: it returned, or an exception left it. *)
Inductive outcome (S : Type) :=
| Done (s : S)
| Raised (s : S).
Arguments Done {S} s.
Arguments Raised {S} s.

Definition state_of {S} (o : outcome S) : S :=
  match o with Done s | Raised s => s end.

Definition is_done {S} (o : outcome S) : bool :=
  match o with Done _ => true | Raised _ => false end.

(** The settings read from the environment by [BanhammerServer.__init__]. *)
Record Config := mkConfig {
  api_token : string;
  _concurrent_window : Z;
  _trigger_period : Z;
  _trigger_count : Z;
  _banlist_threshold : Z;
  _subnet_grouping : bool;
  _data_retention : Z;
  _whitelist_emails : gset string;
  _notification_interval : Z
}.

(** The arguments of a call to the ban list or to the notifier. *)
Record Report := mkReport {
  r_email : string;
  r_telegram_id : string;
  r_description : string;
  r_ip_count : nat;
  r_ips : gset string;
  r_nodes : gset string;
  r_violation_duration : Z;
  r_limit : Z
}.

(** The calls made to the optional collaborators [db] and [telegram].
    [core.database] and [core.telegram] are imported under [try] and are not
    part of the repository: what they answer is a parameter of the sweep. *)
Inductive Event :=
| UpdateBanEntry (record_id : Z) (r : Report)
| AddToBanlist (r : Report) (detected_at : Z)
| SendViolationContinues (r : Report)
| SendViolation (r : Report).

Inductive ban_lookup :=
| LookupRaises
| NoActiveBan
| ActiveBan (record_id : Z).

(** [core.database.db]: what [get_active_ban] answers.  Its writes
    ([update_ban_entry], [add_to_banlist]) are recorded as events; an
    exception they raise is caught and logged by the caller and changes
    nothing. *)
Record Database := mkDatabase {
  get_active_ban : string → ban_lookup
}.

(** [core.telegram.telegram]: whether a send returns ([true]) or raises. *)
Record Telegram := mkTelegram {
  tg_send : Event → bool
}.

(** The collaborators of one sweep.  [db] and [telegram] are [None] when the
    module could not be imported ([HAS_DATABASE], [HAS_TELEGRAM]);
    [clock email] is what [datetime.now()] reads inside [_add_to_banlist]
    called for [email]. *)
Record World := mkWorld {
  db : option Database;
  telegram : option Telegram;
  clock : string → Z
}.

Module Server.

Record t := mk {
  tracker : UserTracker.t;
  _user_triggers : gmap string (list Z);
  _violator_first_seen : gmap string Z;
  _violator_ips : gmap string (gset string);
  _confirmed_violators : gset string;
  _user_limits : gmap string Z;
  _current_violators : gset string;
  _last_notification : gmap string Z
}.

(** [BanhammerServer()] *)
Definition new (cfg : Config) : t :=
  mk (UserTracker.new (_concurrent_window cfg) (_data_retention cfg))
     ∅ ∅ ∅ ∅ ∅ ∅ ∅.

Definition set_tracker (x : UserTracker.t) (s : t) : t :=
  mk x (_user_triggers s) (_violator_first_seen s) (_violator_ips s)
     (_confirmed_violators s) (_user_limits s) (_current_violators s)
     (_last_notification s).
Definition set_user_triggers (x : gmap string (list Z)) (s : t) : t :=
  mk (tracker s) x (_violator_first_seen s) (_violator_ips s)
     (_confirmed_violators s) (_user_limits s) (_current_violators s)
     (_last_notification s).
Definition set_violator_first_seen (x : gmap string Z) (s : t) : t :=
  mk (tracker s) (_user_triggers s) x (_violator_ips s)
     (_confirmed_violators s) (_user_limits s) (_current_violators s)
     (_last_notification s).
Definition set_violator_ips (x : gmap string (gset string)) (s : t) : t :=
  mk (tracker s) (_user_triggers s) (_violator_first_seen s) x
     (_confirmed_violators s) (_user_limits s) (_current_violators s)
     (_last_notification s).
Definition set_confirmed_violators (x : gset string) (s : t) : t :=
  mk (tracker s) (_user_triggers s) (_violator_first_seen s) (_violator_ips s)
     x (_user_limits s) (_current_violators s) (_last_notification s).
Definition set_user_limits (x : gmap string Z) (s : t) : t :=
  mk (tracker s) (_user_triggers s) (_violator_first_seen s) (_violator_ips s)
     (_confirmed_violators s) x (_current_violators s) (_last_notification s).
Definition set_current_violators (x : gset string) (s : t) : t :=
  mk (tracker s) (_user_triggers s) (_violator_first_seen s) (_violator_ips s)
     (_confirmed_violators s) (_user_limits s) x (_last_notification s).
Definition set_last_notification (x : gmap string Z) (s : t) : t :=
  mk (tracker s) (_user_triggers s) (_violator_first_seen s) (_violator_ips s)
     (_confirmed_violators s) (_user_limits s) (_current_violators s) x.

Section Engine.
Variable cfg : Config.

(** [[t for t in triggers if t >= cutoff]] *)
Definition prune (cutoff : Z) (triggers : list Z) : list Z :=
  filter (λ t, cutoff ≤ t) triggers.

(** The addresses counted as simultaneous, and their count. *)
Definition concurrent_ips (user : UserInfo.t) : gset string :=
  UserInfo.get_recent_ips (_concurrent_window cfg) 1 user.

Definition ip_count (user : UserInfo.t) : Z :=
  if _subnet_grouping cfg
  then Z.of_nat (size (group_ips_by_subnet (concurrent_ips user)))
  else Z.of_nat (size (concurrent_ips user)).

Definition _check_concurrent_ips (panel : PanelAPI.t) (user : UserInfo.t)
    (ts : Z) (s : t) : outcome t :=
  let em := UserInfo.email user in
  if decide (em ∈ _whitelist_emails cfg) then Done s
  else
    match PanelAPI.get_limit em panel with
    | None => Done s
    | Some limit =>
        if decide (limit = 0) then Done s
        else
          let s1 := set_user_limits (<[em := limit]> (_user_limits s)) s in
          if decide (limit < ip_count user) then
            let triggers := default [] (_user_triggers s1 !! em) ++ [ts] in
            let cutoff := ts - timedelta (_trigger_period cfg) in
            let pruned := prune cutoff triggers in
            let s2 := set_user_triggers (<[em := pruned]> (_user_triggers s1)) s1 in
            if decide (_trigger_count cfg ≤ Z.of_nat (length pruned)) then
              let s3 :=
                if decide (em ∈ _current_violators s2) then s2
                else set_violator_ips (<[em := ∅]> (_violator_ips s2))
                       (set_violator_first_seen
                          (<[em := ts]> (_violator_first_seen s2)) s2) in
              let s4 := set_current_violators (_current_violators s3 ∪ {[em]}) s3 in
              (* [self._violator_ips[email].update(concurrent_ips)]: a
                 [KeyError] when the email has no entry *)
              match _violator_ips s4 !! em with
              | Some ips =>
                  Done (set_violator_ips
                          (<[em := ips ∪ concurrent_ips user]> (_violator_ips s4)) s4)
              | None => Raised s4
              end
            else Done s2
          else Done s1
    end.

Definition _on_entry (panel : PanelAPI.t) (node_name : string)
    (entry : LogEntry) (s : t) : outcome t :=
  let '(tr, user) := UserTracker.process_entry entry node_name (tracker s) in
  _check_concurrent_ips panel user (timestamp entry) (set_tracker tr s).

(** The distinct non-empty node names of [recent_requests]. *)
Definition node_names (user : UserInfo.t) : gset string :=
  list_to_set
    (filter (λ n, n ≠ EmptyString) (rl_node_name <$> UserInfo.recent_requests user)).

(** [str(panel_info.get('telegram_id', ''))]: the key is always stored,
    with [None] for a user without one. *)
Definition tg_id_of (info : option PanelAPI.user) : string :=
  match info with
  | Some i => default "None" (PanelAPI.telegram_id i)
  | None => EmptyString
  end.

Definition description_of (info : option PanelAPI.user) : string :=
  match info with
  | Some i => PanelAPI.description i
  | None => EmptyString
  end.

(** The throttle of the notification sent for a ban that goes on. *)
Definition may_notify (now : Z) (last_notif : option Z) : bool :=
  match last_notif with
  | None => true
  | Some ln => bool_decide (timedelta (_notification_interval cfg) ≤ now - ln)
  end.

Definition _add_to_banlist (w : World) (panel : PanelAPI.t) (user : UserInfo.t)
    (ip_count : nat) (limit : Z) (violation_duration : Z) (s : t)
    : outcome t * list Event :=
  match db w with
  | None => (Done s, [])
  | Some database =>
      let em := UserInfo.email user in
      let violation_ips :=
        default ∅ (_violator_ips s !! em) ∪ concurrent_ips user in
      let nodes := node_names user in
      let panel_info := PanelAPI.get_user_info em panel in
      let now := clock w em in
      let report :=
        mkReport em (tg_id_of panel_info) (description_of panel_info)
          (size violation_ips) violation_ips nodes violation_duration limit in
      match get_active_ban database em with
      | LookupRaises => (Raised s, [])
      | ActiveBan record_id =>
          let s1 := set_confirmed_violators (_confirmed_violators s ∪ {[em]}) s in
          let upd := UpdateBanEntry record_id report in
          match telegram w with
          | None => (Done s1, [upd])
          | Some tg =>
              if may_notify now (_last_notification s1 !! em) then
                let msg := SendViolationContinues report in
                if tg_send tg msg
                then (Done (set_last_notification
                              (<[em := now]> (_last_notification s1)) s1),
                      [upd; msg])
                else (Done s1, [upd; msg])
              else (Done s1, [upd])
          end
      | NoActiveBan =>
          let s1 := set_confirmed_violators (_confirmed_violators s ∪ {[em]}) s in
          let add := AddToBanlist report now in
          match telegram w with
          | None => (Done s1, [add])
          | Some tg =>
              let msg := SendViolation report in
              if tg_send tg msg
              then (Done (set_last_notification
                            (<[em := now]> (_last_notification s1)) s1),
                    [add; msg])
              else (Done s1, [add; msg])
          end
      end
  end.

(** The demotion of [_check_limits]. *)
Definition demote (em : string) (s : t) : t :=
  set_violator_ips (delete em (_violator_ips s))
    (set_violator_first_seen (delete em (_violator_first_seen s))
       (set_current_violators (_current_violators s ∖ {[em]}) s)).

(** The ban-list part of one iteration of the first loop, for the email
    [em] of the loop and the user the tracker holds for it. *)
Definition check_ban (w : World) (panel : PanelAPI.t) (now : Z)
    (em : string) (user : UserInfo.t) (s : t) : outcome t * list Event :=
  match _violator_first_seen s !! em with
  | None => (Done s, [])
  | Some first_seen =>
      let time_in_violation := now - first_seen in
      let limit := default 0 (_user_limits s !! em) in
      if decide (timedelta (_banlist_threshold cfg) ≤ time_in_violation) then
        _add_to_banlist w panel user
          (size (default ∅ (_violator_ips s !! em))) limit
          (time_in_violation `quot` 1000000) s
      else (Done s, [])
  end.

(** One iteration of the first loop of [_check_limits]. *)
Definition check_violator (w : World) (panel : PanelAPI.t) (now : Z)
    (em : string) (s : t) : outcome t * list Event :=
  match UserTracker.get_user em (tracker s) with
  | None => (Done s, [])
  | Some user =>
      match _user_triggers s !! em with
      | Some triggers =>
          let pruned := prune (now - timedelta (_trigger_period cfg)) triggers in
          let s1 := set_user_triggers (<[em := pruned]> (_user_triggers s)) s in
          if decide (Z.of_nat (length pruned) < _trigger_count cfg)
          then (Done (demote em s1), [])
          else check_ban w panel now em user s1
      | None => check_ban w panel now em user s
      end
  end.

(** The first loop, over [list(self._current_violators)] in the order
    [order] in which the set is listed. *)
Fixpoint violators_loop (w : World) (panel : PanelAPI.t) (now : Z)
    (order : list string) (s : t) : outcome t * list Event :=
  match order with
  | [] => (Done s, [])
  | em :: rest =>
      match check_violator w panel now em s with
      | (Done s', evs) =>
          let '(o, evs') := violators_loop w panel now rest s' in
          (o, evs ++ evs')
      | (Raised s', evs) => (Raised s', evs)
      end
  end.

(** What the second loop leaves of one trigger list. *)
Definition swept (now : Z) (violators : gset string) (em : string)
    (triggers : list Z) : option (list Z) :=
  if decide (em ∈ violators) then Some triggers
  else
    match prune (now - timedelta (_trigger_period cfg)) triggers with
    | [] => None
    | kept => Some kept
    end.

Definition sweep_triggers (now : Z) (s : t) : t :=
  set_user_triggers
    (map_imap (swept now (_current_violators s)) (_user_triggers s)) s.

Definition _check_limits (w : World) (panel : PanelAPI.t) (now : Z)
    (order : list string) (s : t) : outcome t * list Event :=
  if PanelAPI.is_loaded panel then
    match violators_loop w panel now order s with
    | (Done s', evs) => (Done (sweep_triggers now s'), evs)
    | (Raised s', evs) => (Raised s', evs)
    end
  else (Done s, []).

(** What the first loop of [_api_violators] does to the addresses recorded
    for [em]: [self._violator_ips.get(email, set())] gives the recorded set
    itself, and [update] adds the concurrent addresses to it. *)
Definition touched_ips (s : t) (em : string) (ips : gset string) : gset string :=
  if decide (em ∈ _current_violators s) then
    match UserTracker.get_user em (tracker s) with
    | Some user => ips ∪ concurrent_ips user
    | None => ips
    end
  else ips.

(** The state that a call of [_api_violators] leaves. *)
Definition _api_violators_state (s : t) : t :=
  set_violator_ips
    (map_imap (λ em ips, Some (touched_ips s em ips)) (_violator_ips s)) s.

(** *** The engine as a transition system *)

Inductive action :=
| Entry (panel : PanelAPI.t) (node_name : string) (entry : LogEntry)
| Sweep (panel : PanelAPI.t) (w : World) (now : Z) (order : list string)
| TrackerCleanup.

Definition exec (s : t) (a : action) : t :=
  match a with
  | Entry panel node_name entry => state_of (_on_entry panel node_name entry s)
  | Sweep panel w now order => state_of (_check_limits w panel now order s).1
  | TrackerCleanup =>
      set_tracker (UserTracker.cleanup_old_data (tracker s)).1 s
  end.

(** A sweep walks the violators in some order of the set. *)
Definition admissible (s : t) (a : action) : Prop :=
  match a with
  | Sweep _ _ _ order => order ≡ₚ elements (_current_violators s)
  | _ => True
  end.

Inductive reachable : t → Prop :=
| reachable_new : reachable (new cfg)
| reachable_exec s a : reachable s → admissible s a → reachable (exec s a).

Definition run (actions : list action) (s : t) : t := fold_left exec actions s.

Definition is_entry_for (em : string) (ts : Z) (a : action) : Prop :=
  match a with
  | Entry _ _ entry => email entry = em ∧ timestamp entry = ts
  | _ => False
  end.

End Engine.

End Server.

(** ** server.py: the token check of the query API *)

Module Api.

(** A JSON object whose values are strings, as a list of members. *)
Definition json : Type := list (string * string).

Record Request := mkRequest {
  headers : list (string * string);
  query : list (string * string)
}.

Record Response := mkResponse {
  status : Z;
  body : json
}.

(** [web.json_response(data, status=...)] *)
Definition json_response (data : json) (status : Z) : Response :=
  mkResponse status data.

Definition lower_char (c : ascii) : ascii :=
  let n := nat_of_ascii c in
  if decide (65 ≤ n ∧ n ≤ 90)%nat then ascii_of_nat (n + 32) else c.

Fixpoint lower (s : string) : string :=
  match s with
  | EmptyString => EmptyString
  | String c rest => String (lower_char c) (lower rest)
  end.

(** [d.get(key, '')] on a multidict: the first value stored under the key. *)
Fixpoint get (same : string → string → bool) (key : string)
    (d : list (string * string)) : string :=
  match d with
  | [] => EmptyString
  | (k, v) :: rest => if same k key then v else get same key rest
  end.

(** Header names compare without case, query keys exactly. *)
Definition header_get (key : string) (d : list (string * string)) : string :=
  get (λ k1 k2, bool_decide (lower k1 = lower k2)) key d.

Definition query_get (key : string) (d : list (string * string)) : string :=
  get (λ k1 k2, bool_decide (k1 = k2)) key d.

(** The token a request carries, as the middleware reads it. *)
Definition token_of (request : Request) : string :=
  let auth_header := header_get "Authorization" (headers request) in
  if String.prefix "Bearer " auth_header
  then String.substring 7 (String.length auth_header - 7) auth_header
  else query_get "token" (query request).

Definition unauthorized : Response :=
  json_response [("error", "Unauthorized")] 401.

(** The result pairs the response with the requests handed to the
    wrapped handler. *)
Definition _auth_middleware (cfg : Config) (request : Request)
    (handler : Request → Response) : Response * list Request :=
  if decide (api_token cfg ≠ EmptyString) then
    if decide (token_of request ≠ api_token cfg) then (unauthorized, [])
    else (handler request, [request])
  else (handler request, [request]).

End Api.

(** * Vocabulary of the statements *)

Module TrackerSpec.
Import UserTracker.

(** The timestamps of the processed entries of one (email, address), in
    processing order. *)
Definition pair_timestamps (em ip : string) (ops : list op) : list Z :=
  timestamp <$>
    filter (λ e, email e = em ∧ source_ip e = ip) (entries_of ops).

Fixpoint max_of (l : list Z) : option Z :=
  match l with
  | [] => None
  | x :: rest =>
      match max_of rest with
      | None => Some x
      | Some m => Some (Z.max x m)
      end
  end.

(** Every stored per-address [last_seen] is the maximum over the entries. *)
Definition last_seen_is_max (ops : list op) (tr : t) : Prop :=
  ∀ em ip u stats,
    _users tr !! em = Some u →
    UserInfo.ip_stats u !! ip = Some stats →
    max_of (pair_timestamps em ip ops) = Some (IPStats.last_seen stats).

(** The two time invariants of a user state. *)
Definition times_ok (u : UserInfo.t) : Prop :=
  ∃ fs ls,
    UserInfo.first_seen u = Some fs ∧ UserInfo.last_seen u = Some ls ∧
    fs ≤ ls ∧
    ∀ ip stats, UserInfo.ip_stats u !! ip = Some stats →
                IPStats.last_seen stats ≤ ls.

Definition counters_ok (u : UserInfo.t) : Prop :=
  UserInfo.blocked_count u ≤ UserInfo.request_count u.

Definition user_invariants (tr : t) : Prop :=
  ∀ em u, _users tr !! em = Some u → times_ok u ∧ counters_ok u.

(** The entries of each user come with non-decreasing timestamps. *)
Fixpoint per_user_monotone (es : list LogEntry) : Prop :=
  match es with
  | [] => True
  | e :: rest =>
      Forall (λ e', email e' = email e → timestamp e ≤ timestamp e') rest ∧
      per_user_monotone rest
  end.

Definition entry (ts : Z) (em ip act : string) : LogEntry :=
  mkLogEntry ts ip "tcp" "example.org" 443 act em EmptyString.

(** Two entries of one user and address that arrive out of order. *)
Definition out_of_order : list op :=
  [ProcessEntry (entry 5000000 "a@x" "10.0.0.1" "DIRECT") "n1";
   ProcessEntry (entry 3000000 "a@x" "10.0.0.1" "DIRECT") "n2"].

Definition in_order : list op :=
  [ProcessEntry (entry 3000000 "a@x" "10.0.0.1" "BLOCK") "n1";
   CleanupOldData;
   ProcessEntry (entry 5000000 "a@x" "10.0.0.1" "DIRECT") "n2"].

(** The invariant carried along a run: the time invariants, and the user's
    [last_seen] is the timestamp of one of its processed entries. *)
Definition tracked (ops : list op) (em : string) (u : UserInfo.t) : Prop :=
  times_ok u ∧
  ∃ e, e ∈ entries_of ops ∧ email e = em ∧
       UserInfo.last_seen u = Some (timestamp e).

(** The user the run [in_order] leaves. *)
Definition in_order_user : UserInfo.t :=
  default (UserInfo.new EmptyString) (_users (run in_order (new 2 300)) !! "a@x").

Definition out_of_order_user : UserInfo.t :=
  default (UserInfo.new EmptyString) (_users (run out_of_order (new 2 300)) !! "a@x").

End TrackerSpec.



Module EngineSpec.
Import Server.

(** The entry is over the limit [limit] configured for its user, who is not
    whitelisted. *)
Definition over_limit (cfg : Config) (panel : PanelAPI.t) (user : UserInfo.t)
    (limit : Z) : Prop :=
  (UserInfo.email user ∉ _whitelist_emails cfg) ∧
  PanelAPI.get_limit (UserInfo.email user) panel = Some limit ∧
  limit < ip_count cfg user.

(** The triggers of [em] after a trigger at [ts]. *)
Definition pruned_triggers (cfg : Config) (em : string) (ts : Z) (s : t) : list Z :=
  prune (ts - timedelta (_trigger_period cfg))
    (default [] (_user_triggers s !! em) ++ [ts]).

(** The evaluation of an entry of [user] at [ts] reaches the branch that
    marks the user as violator. *)
Definition promotes (cfg : Config) (panel : PanelAPI.t) (user : UserInfo.t)
    (ts : Z) (s : t) : Prop :=
  ∃ limit,
    over_limit cfg panel user limit ∧ limit ≠ 0 ∧
    _trigger_count cfg ≤
    Z.of_nat (length (pruned_triggers cfg (UserInfo.email user) ts s)).

(** The timestamp of the entry evaluated last. *)
Definition last_entry_timestamp (actions : list action) : option Z :=
  last (omap (λ a, match a with
                   | Entry _ _ entry => Some (timestamp entry)
                   | _ => None
                   end) actions).

(** Every violator has [TRIGGER_COUNT] triggers no older than
    [TRIGGER_PERIOD] before the latest entry. *)
Definition violators_have_recent_triggers (cfg : Config) (actions : list action)
    : Prop :=
  let s := run cfg actions (new cfg) in
  ∀ em ts,
    em ∈ _current_violators s →
    last_entry_timestamp actions = Some ts →
    _trigger_count cfg ≤
    Z.of_nat (length (prune (ts - timedelta (_trigger_period cfg))
                        (default [] (_user_triggers s !! em)))).

(** The addresses recorded for every violator cover its concurrent ones. *)
Definition violator_ips_cover_recent (cfg : Config) (s : t) : Prop :=
  ∀ em user,
    em ∈ _current_violators s →
    UserTracker.get_user em (tracker s) = Some user →
    concurrent_ips cfg user ⊆ default ∅ (_violator_ips s !! em).

(** Every violator has an entry in [_violator_ips]. *)
Definition violators_have_ips (s : t) : Prop :=
  ∀ em, em ∈ _current_violators s → is_Some (_violator_ips s !! em).

(** The detection state of [em] is the same in [s] and [s']. *)
Definition same_at (em : string) (s s' : t) : Prop :=
  (em ∈ _current_violators s' ↔ em ∈ _current_violators s) ∧
  _violator_ips s' !! em = _violator_ips s !! em ∧
  _violator_first_seen s' !! em = _violator_first_seen s !! em ∧
  _user_triggers s' !! em = _user_triggers s !! em.

(** [em] is due for demotion at [now]: it is tracked and fewer than
    [TRIGGER_COUNT] of its triggers survive the cutoff. *)
Definition demotable (cfg : Config) (now : Z) (em : string) (s : t) : Prop :=
  is_Some (UserTracker.get_user em (tracker s)) ∧
  ∃ triggers,
    _user_triggers s !! em = Some triggers ∧
    Z.of_nat (length (prune (now - timedelta (_trigger_period cfg)) triggers))
    < _trigger_count cfg.

(** Every tracked user is stored under its own email. *)
Definition keyed_by_email (tr : UserTracker.t) : Prop :=
  ∀ em u, UserTracker._users tr !! em = Some u → UserInfo.email u = em.

(** Every action of the sequence is admissible where it is taken. *)
Fixpoint admissible_run (cfg : Config) (s : t) (actions : list action) : Prop :=
  match actions with
  | [] => True
  | a :: rest => admissible s a ∧ admissible_run cfg (exec cfg s a) rest
  end.

Definition is_sweep (a : action) : Prop :=
  match a with
  | Sweep _ _ _ _ => True
  | _ => False
  end.

(** The first loop of the sweep gets to [em]: the iterations listed before
    it all return. *)
Definition reaches (cfg : Config) (w : World) (panel : PanelAPI.t) (now : Z)
    (order : list string) (em : string) (s : t) : Prop :=
  ∃ before after,
    order = before ++ em :: after ∧
    is_done (violators_loop cfg w panel now before s).1 = true.

(** [em] has no violator state. *)
Definition demoted (em : string) (s : t) : Prop :=
  (em ∉ _current_violators s) ∧
  _violator_first_seen s !! em = None ∧
  _violator_ips s !! em = None.

Definition is_notification (ev : Event) : Prop :=
  match ev with
  | SendViolationContinues _ | SendViolation _ => True
  | _ => False
  end.

(** *** The defaults of the end-to-end scenarios *)

Definition cfg0 : Config := mkConfig "secret" 2 30 5 300 false 300 ∅ 300.

Definition panel0 : PanelAPI.t :=
  PanelAPI.mk {[ "a@x" := PanelAPI.mkUser (Some 2) None "vip" "a" "s1" ]} true 0 300.

Definition entry_at (ts : Z) (ip : string) : LogEntry :=
  TrackerSpec.entry ts "a@x" ip "DIRECT".

(** Three addresses of one user within a second, starting at second [t]. *)
Definition burst (t : Z) : list action :=
  [Entry panel0 "n1" (entry_at (timedelta t) "10.0.0.1");
   Entry panel0 "n2" (entry_at (timedelta t + 500000) "10.0.1.2");
   Entry panel0 "n1" (entry_at (timedelta t + 1000000) "10.0.2.3")].

(** Five bursts five seconds apart: the user becomes a violator. *)
Definition promotion : list action :=
  burst 0 ++ burst 5 ++ burst 10 ++ burst 15 ++ burst 20.

(** The violator comes back alone, from a new address, much later. *)
Definition late_entry : action :=
  Entry panel0 "n1" (entry_at (timedelta 1000) "9.9.9.9").

Definition quiet_world : World := mkWorld None None (λ _, 0).

(** A world with an active ban on record and a working notifier. *)
Definition banned_world (now : Z) : World :=
  mkWorld (Some (mkDatabase (λ _, ActiveBan 7)))
          (Some (mkTelegram (λ _, true))) (λ _, now).

Definition fresh_world (now : Z) (sends : bool) : World :=
  mkWorld (Some (mkDatabase (λ _, NoActiveBan)))
          (Some (mkTelegram (λ _, sends))) (λ _, now).

Definition violator_state : t := run cfg0 promotion (new cfg0).

(** The last entry of [promotion], and the state and user at its
    evaluation. *)
Definition last_burst_entry : LogEntry :=
  entry_at (timedelta 20 + 1000000) "10.0.2.3".

Definition pre_state : t := run cfg0 (take 14 promotion) (new cfg0).

Definition eval_user : UserInfo.t :=
  (UserTracker.process_entry last_burst_entry "n1" (tracker pre_state)).2.

Definition eval_state : t :=
  set_tracker (UserTracker.process_entry last_burst_entry "n1" (tracker pre_state)).1
    pre_state.

Definition eval_outcome : outcome t :=
  _check_concurrent_ips cfg0 panel0 eval_user 21000000 eval_state.

(** A sweep one minute in, with no ban list and no notifier. *)
Definition sweep_result : outcome t * list Event :=
  _check_limits cfg0 quiet_world panel0 (timedelta 60) ["a@x"] violator_state.

(** The violator state with a notification recorded at time 0. *)
Definition notified_state : t :=
  set_last_notification {[ "a@x" := 0 ]} violator_state.

Definition late_state : t := exec cfg0 violator_state late_entry.

Definition violator_user : UserInfo.t :=
  default (UserInfo.new "a@x") (UserTracker.get_user "a@x" (tracker violator_state)).

End EngineSpec.

Module ApiSpec.
Import Api.

(** A request without the right token is answered 401 and not handled. *)
Definition rejects_bad_token (cfg : Config) (request : Request)
    (handler : Request → Response) : Prop :=
  token_of request = EmptyString ∨ token_of request ≠ api_token cfg →
  _auth_middleware cfg request handler = (unauthorized, []).

Definition open_cfg : Config := mkConfig EmptyString 2 30 5 300 false 300 ∅ 300.

Definition ok_handler (request : Request) : Response :=
  json_response [("success", "true")] 200.

Definition bare_request : Request := mkRequest [] [].

Definition bearer_request (token : string) : Request :=
  mkRequest [("authorization", String.append "Bearer " token)] [("token", "secret")].

End ApiSpec.

(** * Tactics *)

(** Reduces the projections of updated states. *)
Ltac simpl_state :=
  cbn [Server.set_tracker Server.set_user_triggers
       Server.set_violator_first_seen Server.set_violator_ips
       Server.set_confirmed_violators Server.set_user_limits
       Server.set_current_violators Server.set_last_notification
       Server.tracker Server._user_triggers Server._violator_first_seen
       Server._violator_ips Server._confirmed_violators Server._user_limits
       Server._current_violators Server._last_notification
       state_of is_done fst snd] in *.

(** Membership in an explicit list, and its case analysis. *)
Ltac in_list :=
  repeat first [apply list_elem_of_here | apply list_elem_of_further].

Ltac list_cases H :=
  repeat (apply elem_of_cons in H as [H|H]; [try discriminate H|]);
  try (by apply elem_of_nil in H).

(** * Vocabulary of the further statements *)

Module MoreSpec.

(** The four parts joined by dots. *)
Definition dotted (a b c d : string) : string :=
  String.append a (String "." (String.append b
    (String "." (String.append c (String "." d))))).

(** The request recorded for an entry. *)
Definition request_of (e : LogEntry) (node_name : string) : RequestLog :=
  mkRequestLog (timestamp e) (source_ip e) (destination e) (destination_port e)
    (action e) node_name.

Definition is_cleanup (o : UserTracker.op) : Prop :=
  match o with
  | UserTracker.CleanupOldData => True
  | _ => False
  end.

(** The invariants of the stored requests of a user. *)
Definition requests_ok (u : UserInfo.t) : Prop :=
  (length (UserInfo.recent_requests u) ≤ UserInfo._max_requests)%nat ∧
  rl_timestamp <$> last (UserInfo.recent_requests u) = UserInfo.last_seen u.

(** The request count stored for an (email, address), 0 when there is
    none. *)
Definition stored_count (tr : UserTracker.t) (em ip : string) : Z :=
  match UserTracker._users tr !! em with
  | Some u =>
      match UserInfo.ip_stats u !! ip with
      | Some stats => IPStats.request_count stats
      | None => 0
      end
  | None => 0
  end.

(** Some user with email [em] has [ip] among its recent addresses. *)
Definition uses_ip (tr : UserTracker.t) (em ip : string) : Prop :=
  ∃ key u,
    UserTracker._users tr !! key = Some u ∧ UserInfo.email u = em ∧
    ip ∈ UserInfo.get_recent_ips (UserTracker.window_seconds tr) 1 u.

(** The last reply of a load: a failed request, a status other than 200,
    or a page of fewer than [page_size] users; [final] is what it adds. *)
Definition closes (reply : PanelAPI.page_reply) (final : list PanelAPI.raw_user)
    : Prop :=
  match reply with
  | PanelAPI.RequestFails => final = []
  | PanelAPI.Reply status users =>
      if decide (status = 200)
      then final = users ∧ (length users < PanelAPI.page_size)%nat
      else final = []
  end.

(** The reply is a full page. *)
Definition full_page (reply : PanelAPI.page_reply) (users : list PanelAPI.raw_user)
    : Prop :=
  reply = PanelAPI.Reply 200 users ∧ (PanelAPI.page_size ≤ length users)%nat.

(** The record of [id] that the cache ends with: the last one listed. *)
Definition last_record (id : string) (all_users : list PanelAPI.raw_user)
    : option PanelAPI.user :=
  PanelAPI.user_of_raw <$> last (filter (λ r, PanelAPI.raw_id r = id) all_users).

(** Every violator has its first-seen time, its addresses and its
    triggers. *)
Definition violators_have_state (s : Server.t) : Prop :=
  ∀ em, em ∈ Server._current_violators s →
        is_Some (Server._violator_first_seen s !! em) ∧
        is_Some (Server._violator_ips s !! em) ∧
        is_Some (Server._user_triggers s !! em).

(** [em] has no detection state at all. *)
Definition untouched (em : string) (s : Server.t) : Prop :=
  (em ∉ Server._current_violators s) ∧
  Server._user_triggers s !! em = None ∧
  Server._violator_first_seen s !! em = None ∧
  Server._violator_ips s !! em = None.

Definition event_email (ev : Event) : string :=
  match ev with
  | UpdateBanEntry _ r | AddToBanlist r _
  | SendViolationContinues r | SendViolation r => r_email r
  end.

(** *** Further scenarios *)

(** An old user and a recent one that have used the same address. *)
Definition two_users : list UserTracker.op :=
  [UserTracker.ProcessEntry (TrackerSpec.entry 1000000 "b@x" "10.0.0.1" "DIRECT") "n1";
   UserTracker.ProcessEntry (TrackerSpec.entry 400000000 "a@x" "10.0.0.1" "DIRECT") "n1";
   UserTracker.ProcessEntry (TrackerSpec.entry 401000000 "a@x" "10.0.0.2" "BLOCK") "n2"].

Definition two_users_tracker : UserTracker.t :=
  UserTracker.run two_users (UserTracker.new 2 300).

Definition recent_user : UserInfo.t :=
  default (UserInfo.new EmptyString)
    (UserTracker._users two_users_tracker !! "a@x").

(** A user on two addresses of one /24 within a second. *)
Definition neighbours : list UserTracker.op :=
  [UserTracker.ProcessEntry (TrackerSpec.entry 3000000 "a@x" "10.0.0.1" "DIRECT") "n1";
   UserTracker.ProcessEntry (TrackerSpec.entry 4000000 "a@x" "10.0.0.2" "DIRECT") "n1"].

Definition neighbours_user : UserInfo.t :=
  default (UserInfo.new EmptyString)
    (UserTracker._users (UserTracker.run neighbours (UserTracker.new 2 300)) !! "a@x").

Definition grouped_cfg : Config := mkConfig "secret" 2 30 5 300 true 300 ∅ 300.

Definition strict_panel : PanelAPI.t :=
  PanelAPI.mk {[ "a@x" := PanelAPI.mkUser (Some 1) None "vip" "a" "s1" ]} true 0 300.

Definition whitelist_cfg : Config :=
  mkConfig "secret" 2 30 5 300 false 300 {[ "a@x" ]} 300.

(** The panel: one full page and a last page of one user; a panel that is
    down; a panel that never runs out of full pages. *)
Definition raw0 : PanelAPI.raw_user :=
  PanelAPI.mkRaw "a@x" (Some (Some 2)) None "vip" "a" "s1".

Definition raw1 : PanelAPI.raw_user :=
  PanelAPI.mkRaw "b@x" None (Some "42") EmptyString "b" "s2".

Definition two_pages (start : nat) : PanelAPI.page_reply :=
  if decide (start = 0%nat) then PanelAPI.Reply 200 (replicate 500 raw0)
  else if decide (start = 500%nat) then PanelAPI.Reply 200 [raw1]
  else PanelAPI.RequestFails.

Definition panel_down (start : nat) : PanelAPI.page_reply := PanelAPI.RequestFails.

Definition endless (start : nat) : PanelAPI.page_reply :=
  PanelAPI.Reply 200 (replicate 500 raw0).

(** A burst every five seconds, for more than [BANLIST_THRESHOLD]. *)
Definition persistent : list Server.action :=
  concat (EngineSpec.burst <$> ((λ k, 5 * Z.of_nat k) <$> seq 0 65)).

Definition persistent_state : Server.t :=
  Server.run EngineSpec.cfg0 persistent (Server.new EngineSpec.cfg0).

(** The violator falls out of the tracker: another user is seen a quarter
    of an hour later, and the tracker is cleaned up. *)
Definition stranding : list Server.action :=
  EngineSpec.promotion ++
  [Server.Entry EngineSpec.panel0 "n1"
     (TrackerSpec.entry (timedelta 1000) "b@x" "10.9.9.9" "DIRECT");
   Server.TrackerCleanup].

Definition stranded_state : Server.t :=
  Server.run EngineSpec.cfg0 stranding (Server.new EngineSpec.cfg0).

Definition whitelisted_state : Server.t :=
  Server.run whitelist_cfg EngineSpec.promotion (Server.new whitelist_cfg).

(** A ban list whose lookup raises. *)
Definition raising_world : World :=
  mkWorld (Some (mkDatabase (λ _, LookupRaises))) None (λ _, 0).

Definition cleaned_user : UserInfo.t :=
  default (UserInfo.new "a@x")
    (UserTracker.get_user "a@x"
       (Server.tracker
          (Server.exec EngineSpec.cfg0 EngineSpec.violator_state Server.TrackerCleanup))).

End MoreSpec.
(** * Theorems on the tracker *)

Section TrackerFacts.
Import UserTracker TrackerSpec.

Lemma run_snoc ops o tr : run (ops ++ [o]) tr = apply_op (run ops tr) o.
Proof. unfold run. by rewrite fold_left_app. Qed.

Lemma entries_of_snoc_entry ops e n :
  entries_of (ops ++ [ProcessEntry e n]) = entries_of ops ++ [e].
Proof. unfold entries_of. by rewrite omap_app. Qed.

Lemma entries_of_snoc_cleanup ops :
  entries_of (ops ++ [CleanupOldData]) = entries_of ops.
Proof. unfold entries_of. rewrite omap_app. simpl. by rewrite app_nil_r. Qed.

(** What [process_entry] stores: the entry's user is rebuilt, the others
    are left as they are. *)
Lemma process_entry_lookup_ne e n tr em :
  em ≠ email e →
  _users (process_entry e n tr).1 !! em = _users tr !! em.
Proof. intros Hne. simpl. by rewrite lookup_insert_ne. Qed.

Lemma process_entry_lookup_eq e n tr :
  _users (process_entry e n tr).1 !! email e = Some (process_entry e n tr).2.
Proof. simpl. by rewrite lookup_insert_eq. Qed.

Lemma process_entry_ip_stats e n tr :
  UserInfo.ip_stats (process_entry e n tr).2 =
  UserInfo.ip_stats
    (UserInfo.add_ip (source_ip e) (timestamp e)
       (default (UserInfo.new (email e)) (_users tr !! email e))).
Proof. unfold process_entry, UserInfo.add_request. cbn [snd]. by destruct (decide _). Qed.

Lemma process_entry_last_seen e n tr :
  UserInfo.last_seen (process_entry e n tr).2 = Some (timestamp e).
Proof. reflexivity. Qed.

(** [cleanup_old_ips] only removes addresses. *)
Lemma cleanup_old_ips_stats w u ip stats :
  UserInfo.ip_stats (UserInfo.cleanup_old_ips w u).1 !! ip = Some stats →
  UserInfo.ip_stats u !! ip = Some stats.
Proof.
  unfold UserInfo.cleanup_old_ips. destruct (UserInfo.last_seen u); simpl; [|done].
  rewrite map_lookup_filter_Some. by intros [? _].
Qed.

Lemma cleanup_old_ips_fields w u :
  let u' := (UserInfo.cleanup_old_ips w u).1 in
  UserInfo.first_seen u' = UserInfo.first_seen u ∧
  UserInfo.last_seen u' = UserInfo.last_seen u ∧
  UserInfo.request_count u' = UserInfo.request_count u ∧
  UserInfo.blocked_count u' = UserInfo.blocked_count u.
Proof.
  unfold UserInfo.cleanup_old_ips.
  destruct (UserInfo.last_seen u) eqn:E; simpl; rewrite ?E; auto.
Qed.

(** [cleanup_old_data] keeps a user only as its cleaned-up former self. *)
Lemma cleanup_old_data_lookup tr em u :
  _users (cleanup_old_data tr).1 !! em = Some u →
  ∃ u0, _users tr !! em = Some u0 ∧
        (u = u0 ∨ u = (UserInfo.cleanup_old_ips (window_seconds tr) u0).1).
Proof.
  unfold cleanup_old_data. destruct (_latest_timestamp tr); simpl.
  - rewrite lookup_fmap, fmap_Some. intros (u0 & Hu0 & ->).
    apply map_lookup_filter_Some in Hu0 as [Hu0 _]. eauto.
  - eauto.
Qed.

Lemma max_of_sorted l :
  StronglySorted Z.le l → max_of l = last l.
Proof.
  induction 1 as [|x l Hs IH Hx]; [done|]. simpl. rewrite IH.
  destruct l as [|y l']; [done|].
  change (last (x :: y :: l')) with (last (y :: l')).
  destruct (last (y :: l')) as [m|] eqn:Hl; [|by apply last_None in Hl].
  f_equal. apply last_Some_elem_of in Hl.
  rewrite Forall_forall in Hx. specialize (Hx m Hl). lia.
Qed.

Lemma pair_timestamps_snoc_cleanup em ip ops :
  pair_timestamps em ip (ops ++ [CleanupOldData]) = pair_timestamps em ip ops.
Proof. unfold pair_timestamps. by rewrite entries_of_snoc_cleanup. Qed.

Lemma pair_timestamps_snoc_same ops e n :
  pair_timestamps (email e) (source_ip e) (ops ++ [ProcessEntry e n]) =
  pair_timestamps (email e) (source_ip e) ops ++ [timestamp e].
Proof.
  unfold pair_timestamps. rewrite entries_of_snoc_entry, filter_app, fmap_app.
  f_equal. rewrite filter_cons_True by done. done.
Qed.

Lemma pair_timestamps_snoc_other em ip ops e n :
  ¬ (email e = em ∧ source_ip e = ip) →
  pair_timestamps em ip (ops ++ [ProcessEntry e n]) = pair_timestamps em ip ops.
Proof.
  intros Hne. unfold pair_timestamps.
  rewrite entries_of_snoc_entry, filter_app, fmap_app.
  rewrite filter_cons_False by done. simpl. by rewrite app_nil_r.
Qed.

(** The stored [last_seen] of an address is the timestamp of the entry of
    that (email, address) processed last. *)
Lemma ip_last_seen_latest ops window max_age em ip u stats :
  _users (run ops (new window max_age)) !! em = Some u →
  UserInfo.ip_stats u !! ip = Some stats →
  last (pair_timestamps em ip ops) = Some (IPStats.last_seen stats).
Proof.
  revert em ip u stats.
  induction ops as [|o ops IH] using rev_ind; intros em ip u stats Hu Hip.
  { cbn in Hu. by rewrite lookup_empty in Hu. }
  rewrite run_snoc in Hu. destruct o as [e n|]; cbn [apply_op] in Hu.
  - destruct (decide (em = email e)) as [->|Hem].
    + set (tr := run ops (new window max_age)) in *.
      pose proof (process_entry_lookup_eq e n tr) as Heq.
      assert (u = (process_entry e n tr).2) as -> by congruence.
      rewrite process_entry_ip_stats in Hip. simpl in Hip.
      destruct (decide (ip = source_ip e)) as [->|Hip'].
      * rewrite lookup_insert_eq in Hip. rewrite pair_timestamps_snoc_same.
        rewrite last_snoc. f_equal.
        destruct (UserInfo.ip_stats _ !! source_ip e); by injection Hip as <-.
      * rewrite lookup_insert_ne in Hip by done.
        rewrite pair_timestamps_snoc_other by (intros [_ ?]; done).
        destruct (_users tr !! email e) as [u0|] eqn:Hu0; simpl in Hip.
        -- by eapply IH.
        -- by rewrite lookup_empty in Hip.
    + rewrite process_entry_lookup_ne in Hu by done.
      rewrite pair_timestamps_snoc_other by (intros [? _]; done).
      by eapply IH.
  - rewrite pair_timestamps_snoc_cleanup.
    apply cleanup_old_data_lookup in Hu as (u0 & Hu0 & [->| ->]).
    + by eapply IH.
    + apply cleanup_old_ips_stats in Hip. by eapply IH.
Qed.

(** C5 (amended): for any sequence of tracker operations and any
    (email, address) present in the user's [ip_stats], the stored
    [last_seen] is the timestamp of the entry of that pair processed last;
    it is the maximum over those entries when they arrive with
    non-decreasing timestamps. *)
Theorem ip_last_seen_is_latest_entry ops window max_age em ip u stats :
  _users (run ops (new window max_age)) !! em = Some u →
  UserInfo.ip_stats u !! ip = Some stats →
  last (pair_timestamps em ip ops) = Some (IPStats.last_seen stats) ∧
  (StronglySorted Z.le (pair_timestamps em ip ops) →
   max_of (pair_timestamps em ip ops) = Some (IPStats.last_seen stats)).
Proof.
  intros Hu Hip.
  pose proof (ip_last_seen_latest _ _ _ _ _ _ _ Hu Hip) as Hlast.
  split; [done|]. intros Hs. by rewrite max_of_sorted.
Qed.

Lemma ip_last_seen_is_latest_entry_witness :
  last (pair_timestamps "a@x" "10.0.0.1" in_order) = Some 5000000 ∧
  max_of (pair_timestamps "a@x" "10.0.0.1" in_order) = Some 5000000.
Proof.
  destruct (ip_last_seen_is_latest_entry in_order 2 300 "a@x" "10.0.0.1"
              in_order_user
              (IPStats.mk 5000000 2)) as [Hlast Hmax].
  - vm_compute. reflexivity.
  - vm_compute. reflexivity.
  - split; [exact Hlast|]. apply Hmax. vm_compute.
    repeat constructor; discriminate.
Defined.

(** C5 as stated fails: with a later entry carrying an earlier timestamp
    the stored [last_seen] is below the maximum. *)
Lemma ip_last_seen_not_max :
  ¬ last_seen_is_max out_of_order (run out_of_order (new 2 300)).
Proof.
  intros H.
  specialize (H "a@x" "10.0.0.1"
                out_of_order_user
                (IPStats.mk 3000000 2)).
  vm_compute in H. specialize (H eq_refl eq_refl). discriminate H.
Qed.

(** C7: [get_recent_ips] returns exactly the addresses of [ip_stats] seen
    no earlier than the user's own [last_seen] minus the window and with
    at least [min_requests] requests; no clock is read. *)
Theorem get_recent_ips_exact (u : UserInfo.t) (window_s min_requests : Z)
    (ip : string) :
  ip ∈ UserInfo.get_recent_ips window_s min_requests u ↔
  ∃ stats ls,
    UserInfo.ip_stats u !! ip = Some stats ∧
    UserInfo.last_seen u = Some ls ∧
    ls - timedelta window_s ≤ IPStats.last_seen stats ∧
    min_requests ≤ IPStats.request_count stats.
Proof.
  unfold UserInfo.get_recent_ips.
  destruct (UserInfo.last_seen u) as [ls|].
  - rewrite elem_of_dom. split.
    + intros [stats Hs]. apply map_lookup_filter_Some in Hs as [Hs [H1 H2]].
      simpl in *. eauto 10.
    + intros (stats & ls' & Hs & [= <-] & H1 & H2).
      exists stats. by apply map_lookup_filter_Some.
  - split; [set_solver|]. by intros (? & ? & _ & ? & _).
Qed.

Lemma per_user_monotone_snoc es e :
  per_user_monotone (es ++ [e]) ↔
  per_user_monotone es ∧
  Forall (λ e', email e' = email e → timestamp e' ≤ timestamp e) es.
Proof.
  induction es as [|a es IH]; simpl.
  - split; intros _; repeat constructor.
  - rewrite Forall_app, Forall_singleton, Forall_cons, IH.
    intuition auto using eq_sym.
Qed.

Lemma process_entry_first_seen e n tr :
  UserInfo.first_seen (process_entry e n tr).2 =
  match UserInfo.first_seen
          (default (UserInfo.new (email e)) (_users tr !! email e)) with
  | None => Some (timestamp e)
  | Some f => Some f
  end.
Proof. reflexivity. Qed.

Lemma tracked_run ops window max_age em u :
  per_user_monotone (entries_of ops) →
  _users (run ops (new window max_age)) !! em = Some u →
  tracked ops em u.
Proof.
  revert em u.
  induction ops as [|o ops IH] using rev_ind; intros em u Hmono Hu.
  { cbn in Hu. by rewrite lookup_empty in Hu. }
  rewrite run_snoc in Hu. destruct o as [e n|]; cbn [apply_op] in Hu.
  - unfold tracked. rewrite entries_of_snoc_entry in *.
    apply per_user_monotone_snoc in Hmono as [Hmono Hle].
    specialize (IH) with (1 := Hmono).
    set (tr := run ops (new window max_age)) in *.
    destruct (decide (em = email e)) as [->|Hem].
    + pose proof (process_entry_lookup_eq e n tr) as Heq.
      assert (u = (process_entry e n tr).2) as -> by congruence.
      split; [|exists e; split_and!; [|done|done];
               apply elem_of_app; right; by apply list_elem_of_singleton].
      unfold times_ok.
      rewrite process_entry_first_seen, process_entry_last_seen,
        process_entry_ip_stats.
      destruct (_users tr !! email e) as [u0|] eqn:Hu0; simpl.
      * destruct (IH _ _ Hu0) as [(fs & ls & Hfs & Hls & Hfl & Hips)
                                   (e0 & He0 & Hem0 & Hls0)].
        assert (ls ≤ timestamp e) as Hlt.
        { rewrite Forall_forall in Hle. specialize (Hle e0 He0 Hem0).
          congruence. }
        rewrite Hfs. exists fs, (timestamp e). repeat split; [lia|].
        intros ip stats Hip.
        destruct (decide (ip = source_ip e)) as [->|Hne].
        -- rewrite lookup_insert_eq in Hip.
           destruct (UserInfo.ip_stats u0 !! source_ip e);
             injection Hip as <-; simpl; lia.
        -- rewrite lookup_insert_ne in Hip by done.
           specialize (Hips _ _ Hip). lia.
      * exists (timestamp e), (timestamp e). repeat split; [lia|].
        intros ip stats Hip.
        destruct (decide (ip = source_ip e)) as [->|Hne].
        -- rewrite lookup_insert_eq, lookup_empty in Hip.
           injection Hip as <-. simpl. lia.
        -- rewrite lookup_insert_ne, lookup_empty in Hip by done. done.
    + rewrite process_entry_lookup_ne in Hu by done.
      destruct (IH _ _ Hu) as [Hok (e0 & He0 & Hem0 & Hls0)].
      split; [done|]. exists e0. split_and!; [|done|done].
      apply elem_of_app. by left.
  - unfold tracked. rewrite entries_of_snoc_cleanup in *.
    apply cleanup_old_data_lookup in Hu as (u0 & Hu0 & [->| ->]);
      [by apply IH|].
    destruct (IH _ _ Hmono Hu0) as [(fs & ls & Hfs & Hls & Hfl & Hips)
                                     (e0 & He0 & Hem0 & Hls0)].
    destruct (cleanup_old_ips_fields (window_seconds (run ops (new window max_age))) u0)
      as (Hf & Hl & _ & _).
    split.
    + exists fs, ls. rewrite Hf, Hl. repeat split; [done..|].
      intros ip stats Hip. apply cleanup_old_ips_stats in Hip. eauto.
    + exists e0. by rewrite Hl.
Qed.

Lemma counters_ok_run ops window max_age em u :
  _users (run ops (new window max_age)) !! em = Some u → counters_ok u.
Proof.
  revert em u.
  induction ops as [|o ops IH] using rev_ind; intros em u Hu.
  { cbn in Hu. by rewrite lookup_empty in Hu. }
  rewrite run_snoc in Hu. destruct o as [e n|]; cbn [apply_op] in Hu.
  - set (tr := run ops (new window max_age)) in *.
    destruct (decide (em = email e)) as [->|Hem].
    + pose proof (process_entry_lookup_eq e n tr) as Heq.
      assert (u = (process_entry e n tr).2) as -> by congruence.
      assert (counters_ok (default (UserInfo.new (email e)) (_users tr !! email e)))
        as Hok.
      { destruct (_users tr !! email e) eqn:Hu0; [by eapply IH|].
        unfold counters_ok. simpl. lia. }
      unfold counters_ok in *. simpl.
      destruct (bool_decide (action e = "BLOCK")); lia.
    + rewrite process_entry_lookup_ne in Hu by done. by eapply IH.
  - apply cleanup_old_data_lookup in Hu as (u0 & Hu0 & [->| ->]);
      [by eapply IH|].
    specialize (IH _ _ Hu0). unfold counters_ok in *.
    destruct (cleanup_old_ips_fields (window_seconds (run ops (new window max_age))) u0)
      as (_ & _ & Hr & Hb).
    by rewrite Hr, Hb.
Qed.

(** C6 (amended): after every tracker operation every user state has
    [request_count >= blocked_count]; and when the entries of each user
    are processed with non-decreasing timestamps, every address's
    [last_seen] is at most the user's [last_seen], and
    [first_seen <= last_seen]. *)
Theorem user_invariants_when_ordered ops window max_age em u :
  _users (run ops (new window max_age)) !! em = Some u →
  counters_ok u ∧ (per_user_monotone (entries_of ops) → times_ok u).
Proof.
  intros Hu. split; [by eapply counters_ok_run|].
  intros Hmono. by eapply tracked_run.
Qed.

Lemma user_invariants_when_ordered_witness :
  counters_ok in_order_user ∧ times_ok in_order_user.
Proof.
  destruct (user_invariants_when_ordered in_order 2 300 "a@x" in_order_user)
    as [Hc Ht].
  - vm_compute. reflexivity.
  - split; [exact Hc|]. apply Ht. simpl.
    repeat constructor; simpl; lia.
Defined.

(** C6 as stated fails: after two entries of one user that arrive out of
    order, [first_seen] exceeds [last_seen]. *)
Lemma user_invariants_fail_out_of_order :
  ¬ user_invariants (run out_of_order (new 2 300)).
Proof.
  intros H.
  specialize (H "a@x"
                out_of_order_user).
  vm_compute in H. destruct (H eq_refl) as [(fs & ls & Hfs & Hls & Hle & _) _].
  injection Hfs as <-. injection Hls as <-. apply Hle. reflexivity.
Qed.

End TrackerFacts.

(** * Theorems on the detection engine *)

Section EngineFacts.
Import Server EngineSpec.
Variable cfg : Config.

(** C1: when a non-whitelisted user with a positive configured limit has
    more concurrent addresses than the limit, the evaluation appends the
    entry's timestamp to the user's triggers and keeps, in their order,
    exactly the timestamps [t] with [t >= ts - TRIGGER_PERIOD]; and if at
    least [TRIGGER_COUNT] remain while the email is not yet a violator, the
    email becomes one, with [violator_first_seen] set to [ts] and
    [violator_ips] reset to the empty set before the concurrent addresses
    are added. *)
Theorem check_concurrent_ips_over_limit panel user ts s limit :
  over_limit cfg panel user limit →
  0 < limit →
  let em := UserInfo.email user in
  let pruned :=
    filter (λ t, ts - timedelta (_trigger_period cfg) ≤ t)
      (default [] (_user_triggers s !! em) ++ [ts]) in
  let o := _check_concurrent_ips cfg panel user ts s in
  _user_triggers (state_of o) !! em = Some pruned ∧
  (_trigger_count cfg ≤ Z.of_nat (length pruned) →
   em ∉ _current_violators s →
   is_done o = true ∧
   em ∈ _current_violators (state_of o) ∧
   _violator_first_seen (state_of o) !! em = Some ts ∧
   _violator_ips (state_of o) !! em = Some (∅ ∪ concurrent_ips cfg user)).
Proof.
  intros (Hwl & Hlim & Hover) Hpos em pruned o.
  subst o. unfold _check_concurrent_ips.
  rewrite decide_False by done. rewrite Hlim. fold em.
  rewrite decide_False by lia. rewrite decide_True by done.
  simpl_state. unfold prune. fold pruned.
  destruct (decide (_trigger_count cfg ≤ Z.of_nat (length pruned))) as [Hc|Hc].
  - destruct (decide (em ∈ _current_violators s)) as [Hv|Hv]; simpl_state.
    + split; [|done].
      destruct (_violator_ips s !! em); simpl_state; by rewrite lookup_insert_eq.
    + rewrite !lookup_insert_eq. simpl_state. rewrite !lookup_insert_eq.
      split; [done|]. intros _ _. split_and!; [done|set_solver|done|done].
  - simpl_state. rewrite lookup_insert_eq. split; [done|]. intros; lia.
Qed.

(** C10: while the user-limit directory has never completed a load, a sweep
    returns at once: the whole state is unchanged (no demotion, no trigger
    list pruned or deleted) and no ban or notification is issued. *)
Theorem check_limits_not_loaded w panel now order s :
  PanelAPI.is_loaded panel = false →
  _check_limits cfg w panel now order s = (Done s, []).
Proof. intros Hl. unfold _check_limits. by rewrite Hl. Qed.

(** ** Ban escalation *)

(** C8: on ban escalation, a notification that the ban goes on is sent
    only for an active ban and only if the notification recorded for the
    email lies at least [NOTIFICATION_INTERVAL] back (an email with none
    recorded is not held back); with the notifier installed, a new ban
    sends its notification whatever is recorded; and in both branches
    [_last_notification] changes only by a send that succeeded, and is left
    as it is when the send fails. *)
Theorem add_to_banlist_notifications w panel user n limit duration s :
  let r := _add_to_banlist cfg w panel user n limit duration s in
  let em := UserInfo.email user in
  let now := clock w em in
  (∀ rep, SendViolationContinues rep ∈ r.2 →
     (∃ database record_id,
         db w = Some database ∧ get_active_ban database em = ActiveBan record_id) ∧
     ∀ ln, _last_notification s !! em = Some ln →
           timedelta (_notification_interval cfg) ≤ now - ln) ∧
  (∀ database tg,
     db w = Some database → telegram w = Some tg →
     get_active_ban database em = NoActiveBan →
     ∃ rep, SendViolation rep ∈ r.2) ∧
  (_last_notification (state_of r.1) ≠ _last_notification s →
   ∃ tg msg,
     telegram w = Some tg ∧ msg ∈ r.2 ∧ is_notification msg ∧
     tg_send tg msg = true ∧
     _last_notification (state_of r.1) = <[em := now]> (_last_notification s)) ∧
  (∀ tg,
     telegram w = Some tg →
     (∀ msg, msg ∈ r.2 → is_notification msg → tg_send tg msg = false) →
     _last_notification (state_of r.1) = _last_notification s).
Proof.
  intros r em now. subst r. unfold _add_to_banlist. fold em. fold now.
  destruct (db w) as [database|];
    [|simpl_state; split_and!; [by intros ? ?%elem_of_nil|done..]].
  destruct (get_active_ban database em) as [| |record_id] eqn:Hban.
  - simpl_state. split_and!; [by intros ? ?%elem_of_nil|congruence|done..].
  - destruct (telegram w) as [tg|]; simpl_state.
    + destruct (tg_send tg _) eqn:Hsend; simpl_state.
      * split_and!.
        -- intros rep Hin. list_cases Hin.
        -- intros ?? _ _ _. eexists. in_list.
        -- intros _. eexists tg, (SendViolation _).
           split_and!; [done|in_list|done..].
        -- intros ? [= <-] Hall.
           rewrite Hall in Hsend; [done|in_list|done].
      * split_and!; [intros rep Hin; list_cases Hin| |done..].
        intros ?? _ _ _. eexists. in_list.
    + split_and!; [intros rep Hin; list_cases Hin|done..].
  - destruct (telegram w) as [tg|]; simpl_state;
      [|split_and!; [intros rep Hin; list_cases Hin|congruence|done..]].
    destruct (may_notify cfg now _) eqn:Hgate;
      [|split_and!; [intros rep Hin; list_cases Hin|congruence|done..]].
    assert (∀ ln, _last_notification s !! em = Some ln →
                  timedelta (_notification_interval cfg) ≤ now - ln) as Hgap.
    { intros ln Hln. rewrite Hln in Hgate. simpl in Hgate.
      by apply bool_decide_eq_true in Hgate. }
    destruct (tg_send tg _) eqn:Hsend; simpl_state.
    + split_and!; [by eauto|congruence| |].
      * intros _. eexists tg, (SendViolationContinues _).
        split_and!; [done|in_list|done..].
      * intros ? [= <-] Hall.
        rewrite Hall in Hsend; [done|in_list|done].
    + split_and!; [by eauto|congruence|done..].
Qed.

(** ** The sweep *)

Lemma prune_idemp cutoff l : prune cutoff (prune cutoff l) = prune cutoff l.
Proof.
  unfold prune. induction l as [|x l IH]; [done|].
  destruct (decide (cutoff ≤ x)).
  - rewrite !filter_cons_True by done. by rewrite IH.
  - by rewrite filter_cons_False by done.
Qed.

Lemma prune_Forall cutoff l : Forall (λ x, cutoff ≤ x) (prune cutoff l).
Proof.
  apply Forall_forall. intros x Hx. unfold prune in Hx.
  by apply list_elem_of_filter in Hx as [? _].
Qed.

(** [_add_to_banlist] touches [_confirmed_violators] and
    [_last_notification] only. *)
Lemma add_to_banlist_frame w panel user n limit duration s :
  let s' := state_of (_add_to_banlist cfg w panel user n limit duration s).1 in
  tracker s' = tracker s ∧ _user_triggers s' = _user_triggers s ∧
  _violator_first_seen s' = _violator_first_seen s ∧
  _violator_ips s' = _violator_ips s ∧
  _current_violators s' = _current_violators s ∧
  _user_limits s' = _user_limits s.
Proof.
  unfold _add_to_banlist.
  destruct (db w) as [database|]; [|done].
  destruct (get_active_ban database _); [done|..];
    destruct (telegram w) as [tg|]; try done.
  - by destruct (tg_send tg _).
  - destruct (may_notify _ _ _); [|done]. by destruct (tg_send tg _).
Qed.

Lemma check_ban_frame w panel now em user s :
  let s' := state_of (check_ban cfg w panel now em user s).1 in
  tracker s' = tracker s ∧ _user_triggers s' = _user_triggers s ∧
  _violator_first_seen s' = _violator_first_seen s ∧
  _violator_ips s' = _violator_ips s ∧
  _current_violators s' = _current_violators s ∧
  _user_limits s' = _user_limits s.
Proof.
  unfold check_ban. destruct (_violator_first_seen s !! _); [|done].
  case_decide; [|done]. apply add_to_banlist_frame.
Qed.

(** What one iteration of the first loop does to the detection state: it
    prunes the triggers of its email and either leaves the violator state
    alone or demotes that email. *)
Lemma check_violator_shape w panel now em s :
  let s' := state_of (check_violator cfg w panel now em s).1 in
  tracker s' = tracker s ∧
  (_user_triggers s' = _user_triggers s ∨
   ∃ l, _user_triggers s !! em = Some l ∧
        is_Some (UserTracker.get_user em (tracker s)) ∧
        _user_triggers s' =
        <[em := prune (now - timedelta (_trigger_period cfg)) l]> (_user_triggers s)) ∧
  ((_current_violators s' = _current_violators s ∧
    _violator_first_seen s' = _violator_first_seen s ∧
    _violator_ips s' = _violator_ips s ∧
    ¬ demotable cfg now em s) ∨
   (_current_violators s' = _current_violators s ∖ {[em]} ∧
    _violator_first_seen s' = delete em (_violator_first_seen s) ∧
    _violator_ips s' = delete em (_violator_ips s) ∧
    demotable cfg now em s)).
Proof.
  unfold check_violator, demotable.
  destruct (UserTracker.get_user em (tracker s)) as [user|] eqn:Hu.
  2:{ simpl_state. split_and!; [done|by left|]. left.
      split_and!; [done..|]. by intros [[? [=]] _]. }
  destruct (_user_triggers s !! em) as [l|] eqn:Hl.
  2:{ destruct (check_ban_frame w panel now em user s) as (?&?&?&?&?&?).
      split_and!; [done|by left|]. left. split_and!; [done..|].
      by intros (_ & ? & [=] & _). }
  case_decide as Hc.
  - simpl_state. unfold demote. simpl_state.
    split_and!; [done|right; eauto|]. right. split_and!; [done..|eauto].
  - match goal with |- context [check_ban _ _ _ _ _ _ ?s1] =>
      destruct (check_ban_frame w panel now em user s1) as (Ht&Htr&Hf&Hi&Hv&_)
    end.
    simpl_state. split_and!; [done|right; eauto|]. left.
    split_and!; [done..|]. intros (_ & l' & [= <-] & ?). lia.
Qed.

(** A property kept by every iteration is kept by the loop. *)
Lemma violators_loop_keeps (P : t → Prop) w panel now :
  (∀ em s, P s → P (state_of (check_violator cfg w panel now em s).1)) →
  ∀ order s, P s → P (state_of (violators_loop cfg w panel now order s).1).
Proof.
  intros HP order. induction order as [|em rest IH]; intros s Hs; [done|].
  cbn [violators_loop]. specialize (HP em s Hs).
  destruct (check_violator cfg w panel now em s) as [[s1|s1] evs]; [|done].
  specialize (IH s1 HP).
  by destruct (violators_loop cfg w panel now rest s1).
Qed.

Lemma check_violator_demotable w panel now em em' s :
  demotable cfg now em s →
  demotable cfg now em (state_of (check_violator cfg w panel now em' s).1).
Proof.
  intros [Hu (l & Hl & Hlen)].
  destruct (check_violator_shape w panel now em' s) as (Ht & Htr & _).
  unfold demotable. rewrite Ht. split; [done|].
  destruct Htr as [->|(l' & Hl' & _ & ->)]; [eauto|].
  destruct (decide (em = em')) as [<-|Hne].
  - rewrite lookup_insert_eq. eexists; split; [done|].
    rewrite prune_idemp. congruence.
  - rewrite lookup_insert_ne by done. eauto.
Qed.

Lemma check_violator_demoted w panel now em em' s :
  demoted em s →
  demoted em (state_of (check_violator cfg w panel now em' s).1).
Proof.
  intros (Hv & Hf & Hi). unfold demoted.
  destruct (check_violator_shape w panel now em' s)
    as (_ & _ & [(-> & -> & -> & _)|(-> & -> & -> & _)]); [done|].
  split_and!.
  - by intros [? _]%elem_of_difference.
  - apply lookup_delete_None. by right.
  - apply lookup_delete_None. by right.
Qed.

Lemma check_violator_demotes w panel now em s :
  demotable cfg now em s →
  demoted em (state_of (check_violator cfg w panel now em s).1).
Proof.
  intros Hd. unfold demoted.
  destruct (check_violator_shape w panel now em s)
    as (_ & _ & [(_ & _ & _ & ?)|(-> & -> & -> & _)]); [done|].
  split_and!; [|apply lookup_delete_eq..].
  intros [_ Hn]%elem_of_difference. by apply Hn, elem_of_singleton.
Qed.

Lemma violators_loop_app w panel now before rest s :
  is_done (violators_loop cfg w panel now before s).1 = true →
  (violators_loop cfg w panel now (before ++ rest) s).1 =
  (violators_loop cfg w panel now rest
     (state_of (violators_loop cfg w panel now before s).1)).1.
Proof.
  revert s. induction before as [|e before IH]; intros s Hdone; [done|].
  cbn [violators_loop app] in *.
  destruct (check_violator cfg w panel now e s) as [[s1|s1] evs]; [|done].
  specialize (IH s1).
  destruct (violators_loop cfg w panel now before s1) as [o1 evs1].
  destruct (violators_loop cfg w panel now (before ++ rest) s1) as [o2 evs2].
  by apply IH.
Qed.

Lemma violators_loop_prefix_done w panel now before rest s :
  is_done (violators_loop cfg w panel now (before ++ rest) s).1 = true →
  is_done (violators_loop cfg w panel now before s).1 = true.
Proof.
  revert s. induction before as [|e before IH]; intros s Hdone; [done|].
  cbn [violators_loop app] in *.
  destruct (check_violator cfg w panel now e s) as [[s1|s1] evs]; [|done].
  specialize (IH s1).
  destruct (violators_loop cfg w panel now before s1) as [o1 evs1].
  destruct (violators_loop cfg w panel now (before ++ rest) s1) as [o2 evs2].
  by apply IH.
Qed.

(** A loop that completes gets to every email it was given. *)
Lemma completed_loop_reaches w panel now order em s :
  em ∈ order →
  is_done (violators_loop cfg w panel now order s).1 = true →
  reaches cfg w panel now order em s.
Proof.
  intros (before & after & ->)%list_elem_of_split Hdone.
  exists before, after. split; [done|].
  by eapply violators_loop_prefix_done.
Qed.

(** The loop demotes every demotable email it gets to, whether or not a
    later iteration raises. *)
Lemma violators_loop_demotes w panel now em order s :
  demotable cfg now em s →
  reaches cfg w panel now order em s →
  demoted em (state_of (violators_loop cfg w panel now order s).1).
Proof.
  intros Hd (before & after & -> & Hdone).
  rewrite violators_loop_app by done.
  pose proof (violators_loop_keeps (demotable cfg now em) w panel now
                (λ e' s', check_violator_demotable w panel now em e' s')
                before s Hd) as Hd1.
  set (s1 := state_of (violators_loop cfg w panel now before s).1) in *.
  cbn [violators_loop].
  pose proof (check_violator_demotes w panel now em s1 Hd1) as Hq.
  destruct (check_violator cfg w panel now em s1) as [[s2|s2] evs]; [|done].
  pose proof (violators_loop_keeps (demoted em) w panel now
                (λ e' s', check_violator_demoted w panel now em e' s')
                after s2 Hq) as Hrest.
  by destruct (violators_loop cfg w panel now after s2).
Qed.

End EngineFacts.

(** * Theorems on the engine as a transition system *)

Section EngineRuns.
Import Server EngineSpec.
Variable cfg : Config.

(** What the evaluation of an entry does to the detection state. *)
Lemma check_concurrent_ips_shape panel user ts s :
  let em := UserInfo.email user in
  let o := _check_concurrent_ips cfg panel user ts s in
  let s' := state_of o in
  tracker s' = tracker s ∧
  (∀ em', em' ≠ em → same_at em' s s') ∧
  (∀ limit, over_limit cfg panel user limit → limit ≠ 0 →
            _user_triggers s' !! em = Some (pruned_triggers cfg em ts s)) ∧
  ((¬ promotes cfg panel user ts s ∧
    _current_violators s' = _current_violators s ∧
    _violator_first_seen s' = _violator_first_seen s ∧
    _violator_ips s' = _violator_ips s ∧ is_done o = true) ∨
   (promotes cfg panel user ts s ∧
    _current_violators s' = _current_violators s ∪ {[em]} ∧
    ((em ∈ _current_violators s ∧
      _violator_first_seen s' = _violator_first_seen s ∧
      ((∃ ips, _violator_ips s !! em = Some ips ∧
               _violator_ips s' =
               <[em := ips ∪ concurrent_ips cfg user]> (_violator_ips s) ∧
               is_done o = true) ∨
       (_violator_ips s !! em = None ∧ _violator_ips s' = _violator_ips s ∧
        is_done o = false))) ∨
     ((em ∉ _current_violators s) ∧
      _violator_first_seen s' = <[em := ts]> (_violator_first_seen s) ∧
      _violator_ips s' =
      <[em := ∅ ∪ concurrent_ips cfg user]> (_violator_ips s) ∧
      is_done o = true)))).
Proof.
  intros em o s'. subst s' o. unfold _check_concurrent_ips. fold em.
  assert (∀ s1 : t,
    _user_triggers s1 = _user_triggers s →
    _current_violators s1 = _current_violators s →
    _violator_first_seen s1 = _violator_first_seen s →
    _violator_ips s1 = _violator_ips s →
    ∀ em', same_at em' s s1) as Hsame.
  { intros s1 H1 H2 H3 H4 em'. unfold same_at. by rewrite H1, H2, H3, H4. }
  destruct (decide (em ∈ _whitelist_emails cfg)) as [Hwl|Hwl].
  { simpl_state. split_and!; [done|by intros; apply Hsame| |].
    - by intros ? (? & _).
    - left. split_and!; [|done..]. by intros (? & (? & _) & _). }
  destruct (PanelAPI.get_limit em panel) as [limit|] eqn:Hlim.
  2:{ simpl_state. split_and!; [done|by intros; apply Hsame| |].
      - intros ? (_ & ? & _). subst em; congruence.
      - left. split_and!; [|done..]. intros (? & (_ & ? & _) & _). subst em; congruence. }
  destruct (decide (limit = 0)) as [Hz|Hz].
  { simpl_state. split_and!; [done|by intros; apply Hsame| |].
    - intros ? (_ & ? & _) ?. subst em; congruence.
    - left. split_and!; [|done..]. intros (? & (_ & ? & _) & ? & _). subst em; congruence. }
  destruct (decide (limit < ip_count cfg user)) as [Hover|Hover].
  2:{ simpl_state. split_and!; [done|by intros; apply Hsame| |].
      - intros l (_ & ? & ?) _. assert (l = limit) by (subst em; congruence). lia.
      - left. split_and!; [|done..]. intros (l & (_ & ? & ?) & _).
        assert (l = limit) by (subst em; congruence). lia. }
  simpl_state. change (prune _ _) with (pruned_triggers cfg em ts s).
  set (pruned := pruned_triggers cfg em ts s).
  assert (∀ s1 : t,
    _user_triggers s1 = <[em := pruned]> (_user_triggers s) →
    (∀ em', em' ≠ em →
       (em' ∈ _current_violators s1 ↔ em' ∈ _current_violators s) ∧
       _violator_ips s1 !! em' = _violator_ips s !! em' ∧
       _violator_first_seen s1 !! em' = _violator_first_seen s !! em') →
    ∀ em', em' ≠ em → same_at em' s s1) as Hsame'.
  { intros s1 H1 H2 em' Hne. destruct (H2 em' Hne) as (?&?&?).
    unfold same_at. rewrite H1, lookup_insert_ne by done. done. }
  destruct (decide (_trigger_count cfg ≤ Z.of_nat (length pruned))) as [Hc|Hc].
  2:{ simpl_state. split_and!; [done| | |].
      - apply Hsame'; [done|]. by intros.
      - intros. by rewrite lookup_insert_eq.
      - left. split_and!; [|done..]. intros (l & (_ & ? & ?) & _ & ?).
        subst pruned em. lia. }
  assert (promotes cfg panel user ts s) as Hp.
  { exists limit. by split_and!. }
  destruct (decide (em ∈ _current_violators s)) as [Hv|Hv]; simpl_state.
  - destruct (_violator_ips s !! em) as [ips|] eqn:Hips; simpl_state.
    + split_and!; [done| | |].
      * apply Hsame'; [done|]. intros em' Hne. simpl_state.
        rewrite lookup_insert_ne by done. split_and!; [|done..].
        rewrite elem_of_union, elem_of_singleton. tauto.
      * intros. by rewrite lookup_insert_eq.
      * right. split_and!; [done..|]. left. split_and!; [done..|]. left. eauto.
    + split_and!; [done| | |].
      * apply Hsame'; [done|]. intros em' Hne. simpl_state.
        split_and!; [|done..].
        rewrite elem_of_union, elem_of_singleton. tauto.
      * intros. by rewrite lookup_insert_eq.
      * right. split_and!; [done..|]. left. split_and!; [done..|]. by right.
  - rewrite lookup_insert_eq. simpl_state. rewrite insert_insert_eq.
    split_and!; [done| | |].
    + apply Hsame'; [done|]. intros em' Hne. simpl_state.
      rewrite !lookup_insert_ne by done. split_and!; [|done..].
        rewrite elem_of_union, elem_of_singleton. tauto.
    + intros. by rewrite lookup_insert_eq.
    + right. split_and!; [done..|]. right. by split_and!.
Qed.

Lemma on_entry_eq panel node_name entry s :
  _on_entry cfg panel node_name entry s =
  _check_concurrent_ips cfg panel
    (UserTracker.process_entry entry node_name (tracker s)).2 (timestamp entry)
    (set_tracker (UserTracker.process_entry entry node_name (tracker s)).1 s).
Proof. reflexivity. Qed.

(** ** The tracker keeps its users under their own email *)

Lemma process_entry_email e n tr :
  keyed_by_email tr →
  UserInfo.email (UserTracker.process_entry e n tr).2 = email e.
Proof.
  intros Hk. cbn.
  destruct (UserTracker._users tr !! email e) as [u0|] eqn:Hu0; [|done].
  by apply Hk.
Qed.

Lemma process_entry_keyed e n tr :
  keyed_by_email tr → keyed_by_email (UserTracker.process_entry e n tr).1.
Proof.
  intros Hk em u Hu.
  destruct (decide (em = email e)) as [->|Hne].
  - rewrite process_entry_lookup_eq in Hu. injection Hu as <-.
    by apply process_entry_email.
  - rewrite process_entry_lookup_ne in Hu by done. by apply Hk.
Qed.

Lemma cleanup_old_ips_email w u :
  UserInfo.email (UserInfo.cleanup_old_ips w u).1 = UserInfo.email u.
Proof. unfold UserInfo.cleanup_old_ips. by destruct (UserInfo.last_seen u). Qed.

Lemma cleanup_old_data_keyed tr :
  keyed_by_email tr → keyed_by_email (UserTracker.cleanup_old_data tr).1.
Proof.
  intros Hk em u Hu.
  apply cleanup_old_data_lookup in Hu as (u0 & Hu0 & [->| ->]).
  - by apply Hk.
  - rewrite cleanup_old_ips_email. by apply Hk.
Qed.

(** ** What a sweep keeps *)

Lemma check_limits_keeps (P : t → Prop) w panel now order s :
  (∀ em s, P s → P (state_of (check_violator cfg w panel now em s).1)) →
  (∀ s, P s → P (sweep_triggers cfg now s)) →
  P s → P (state_of (_check_limits cfg w panel now order s).1).
Proof.
  intros Hbody Hsweep Hs. unfold _check_limits.
  destruct (PanelAPI.is_loaded panel); [|done].
  pose proof (violators_loop_keeps cfg P w panel now Hbody order s Hs) as Hloop.
  destruct (violators_loop cfg w panel now order s) as [[s1|s1] evs]; [|done].
  by apply Hsweep.
Qed.

Lemma check_limits_tracker w panel now order s :
  tracker (state_of (_check_limits cfg w panel now order s).1) = tracker s.
Proof.
  apply (check_limits_keeps (λ s', tracker s' = tracker s)); [|done..].
  intros em s1 <-. by destruct (check_violator_shape cfg w panel now em s1) as [-> _].
Qed.

Lemma check_limits_violators w panel now order s :
  _current_violators (state_of (_check_limits cfg w panel now order s).1)
  ⊆ _current_violators s.
Proof.
  apply (check_limits_keeps (λ s', _current_violators s' ⊆ _current_violators s));
    [|done..].
  intros em s1 Hs1.
  destruct (check_violator_shape cfg w panel now em s1)
    as (_ & _ & [(-> & _)|(-> & _)]); [done|].
  intros x [Hx _]%elem_of_difference. by apply Hs1.
Qed.

Lemma check_limits_violators_have_ips w panel now order s :
  violators_have_ips s →
  violators_have_ips (state_of (_check_limits cfg w panel now order s).1).
Proof.
  apply (check_limits_keeps violators_have_ips); [|done].
  intros em s1 Hs1 em'.
  destruct (check_violator_shape cfg w panel now em s1)
    as (_ & _ & [(-> & _ & -> & _)|(-> & _ & -> & _)]); [by apply Hs1|].
  intros [Hin Hne%not_elem_of_singleton]%elem_of_difference.
  rewrite lookup_delete_ne by done. by apply Hs1.
Qed.

(** ** Invariants of the reachable states *)

Lemma exec_keyed s a :
  keyed_by_email (tracker s) → keyed_by_email (tracker (exec cfg s a)).
Proof.
  intros Hk. destruct a as [panel node_name entry|panel w now order|];
    cbn [exec].
  - rewrite on_entry_eq.
    destruct (check_concurrent_ips_shape panel
                (UserTracker.process_entry entry node_name (tracker s)).2
                (timestamp entry)
                (set_tracker (UserTracker.process_entry entry node_name (tracker s)).1 s))
      as [-> _].
    simpl_state. by apply process_entry_keyed.
  - by rewrite check_limits_tracker.
  - simpl_state. by apply cleanup_old_data_keyed.
Qed.

Lemma run_keyed actions s :
  keyed_by_email (tracker s) → keyed_by_email (tracker (run cfg actions s)).
Proof.
  revert s. induction actions as [|a rest IH]; intros s Hk; [done|].
  cbn [run fold_left]. apply IH. by apply exec_keyed.
Qed.

Lemma check_concurrent_ips_violators_have_ips panel user ts s :
  violators_have_ips s →
  violators_have_ips (state_of (_check_concurrent_ips cfg panel user ts s)) ∧
  is_done (_check_concurrent_ips cfg panel user ts s) = true.
Proof.
  intros Hs.
  destruct (check_concurrent_ips_shape panel user ts s)
    as (_ & _ & _ & [(_ & Hv & _ & Hi & Hd)|(_ & Hv & Hcase)]).
  { split; [|done]. intros em. rewrite Hv, Hi. apply Hs. }
  assert (∀ ips (s' : t),
    _current_violators s' = _current_violators s ∪ {[UserInfo.email user]} →
    _violator_ips s' = <[UserInfo.email user := ips]> (_violator_ips s) →
    violators_have_ips s') as Hins.
  { intros ips s' Hv' Hi' em. rewrite Hv', Hi'.
    destruct (decide (em = UserInfo.email user)) as [->|Hne].
    - by rewrite lookup_insert_eq.
    - rewrite lookup_insert_ne by done.
      intros [?|?%elem_of_singleton]%elem_of_union; [by apply Hs|done]. }
  destruct Hcase as [(Hin & _ & [(ips & Hips & Hi & Hd)|(Hnone & _)])
                    |(_ & _ & Hi & Hd)]; [by eauto|..|by eauto].
  destruct (Hs _ Hin) as [? ?]. congruence.
Qed.

Lemma exec_violators_have_ips s a :
  violators_have_ips s → violators_have_ips (exec cfg s a).
Proof.
  intros Hs. destruct a as [panel node_name entry|panel w now order|];
    cbn [exec].
  - rewrite on_entry_eq. by apply check_concurrent_ips_violators_have_ips.
  - by apply check_limits_violators_have_ips.
  - done.
Qed.

Lemma reachable_invariants s :
  reachable cfg s → keyed_by_email (tracker s) ∧ violators_have_ips s.
Proof.
  induction 1 as [|s a _ [Hk Hi] _].
  - split; [by intros em u Hu; cbn in Hu; rewrite lookup_empty in Hu|].
    intros em Hin. cbn in Hin. set_solver.
  - split; [by apply exec_keyed|by apply exec_violators_have_ips].
Qed.

Lemma run_snoc_action actions a s :
  run cfg (actions ++ [a]) s = exec cfg (run cfg actions s) a.
Proof. unfold run. by rewrite fold_left_app. Qed.

Lemma reachable_run actions s :
  reachable cfg s → admissible_run cfg s actions → reachable cfg (run cfg actions s).
Proof.
  revert s. induction actions as [|a rest IH]; intros s Hs Ha; [done|].
  destruct Ha as [Ha Hrest]. cbn [run fold_left]. apply IH; [|done].
  by constructor.
Qed.

Lemma entries_admissible actions s :
  Forall (λ a, ¬ is_sweep a) actions → admissible_run cfg s actions.
Proof.
  revert s. induction actions as [|a rest IH]; intros s Hall; [done|].
  apply Forall_cons in Hall as [Ha Hrest]. split; [|by apply IH].
  destruct a; [done| |done]. by destruct Ha.
Qed.

(** ** Promotion *)

(** An action that makes [em] a violator is the evaluation of an entry of
    [em], and leaves it with [TRIGGER_COUNT] triggers within
    [TRIGGER_PERIOD] before that entry. *)
Lemma exec_promotes s a em :
  keyed_by_email (tracker s) →
  em ∉ _current_violators s →
  em ∈ _current_violators (exec cfg s a) →
  ∃ ts l,
    is_entry_for em ts a ∧
    _user_triggers (exec cfg s a) !! em = Some l ∧
    _trigger_count cfg ≤ Z.of_nat (length l) ∧
    Forall (λ x, ts - timedelta (_trigger_period cfg) ≤ x) l.
Proof.
  intros Hk Hout Hin. destruct a as [panel node_name entry|panel w now order|];
    cbn [exec] in *.
  - rewrite on_entry_eq in *.
    pose proof (process_entry_email entry node_name (tracker s) Hk) as Hem.
    set (user := (UserTracker.process_entry entry node_name (tracker s)).2) in *.
    set (s0 := set_tracker _ s) in *.
    destruct (check_concurrent_ips_shape panel user (timestamp entry) s0)
      as (_ & _ & Htr & [(_ & Hv & _)|((limit & Hover & Hz & Hc) & Hv & _)]).
    { rewrite Hv in Hin. done. }
    rewrite Hv in Hin. rewrite Hem in *.
    apply elem_of_union in Hin as [?| ->%elem_of_singleton]; [done|].
    exists (timestamp entry), (pruned_triggers cfg (email entry) (timestamp entry) s0).
    split_and!; [done|by eapply Htr|done|apply prune_Forall].
  - by apply check_limits_violators in Hin.
  - done.
Qed.

(** C3 (amended): in every state reached from the initial one, every email
    of the violator set was put there by the evaluation of one of its own
    entries: it was not a violator before that entry, it is one right after
    it, with at least [TRIGGER_COUNT] triggers, all within [TRIGGER_PERIOD]
    before that entry's timestamp, and it has been in the violator set after
    every action since. *)
Theorem violator_was_promoted_by_entry actions em :
  em ∈ _current_violators (run cfg actions (new cfg)) →
  ∃ before a after ts l,
    actions = before ++ a :: after ∧
    is_entry_for em ts a ∧
    (em ∉ _current_violators (run cfg before (new cfg))) ∧
    em ∈ _current_violators (run cfg (before ++ [a]) (new cfg)) ∧
    _user_triggers (run cfg (before ++ [a]) (new cfg)) !! em = Some l ∧
    _trigger_count cfg ≤ Z.of_nat (length l) ∧
    Forall (λ x, ts - timedelta (_trigger_period cfg) ≤ x) l ∧
    ∀ since, since `prefix_of` after →
             em ∈ _current_violators (run cfg (before ++ a :: since) (new cfg)).
Proof.
  induction actions as [|a actions IH] using rev_ind; intros Hin.
  { cbn in Hin. set_solver. }
  destruct (decide (em ∈ _current_violators (run cfg actions (new cfg))))
    as [Hold|Hnew].
  - destruct (IH Hold)
      as (before & a0 & after & ts & l & -> & Ha & Hout & Hstart & Hl & Hc & Hall & Hsince).
    exists before, a0, (after ++ [a]), ts, l.
    split_and!; [by rewrite <- app_assoc|done..|].
    intros since [rest Hrest].
    destruct rest as [|b rest _] using rev_ind.
    + rewrite app_nil_r in Hrest. subst since.
      by rewrite app_comm_cons, app_assoc.
    + rewrite app_assoc in Hrest. apply app_inj_tail in Hrest as [-> _].
      apply Hsince. by eexists.
  - rewrite run_snoc_action in Hin.
    assert (keyed_by_email (tracker (run cfg actions (new cfg)))) as Hk.
    { apply run_keyed. intros ? ? Hu. cbn in Hu. by rewrite lookup_empty in Hu. }
    destruct (exec_promotes _ _ _ Hk Hnew Hin) as (ts & l & Ha & Hl & Hc & Hall).
    exists actions, a, [], ts, l. rewrite run_snoc_action.
    split_and!; [done..|].
    intros since ->%prefix_nil_inv. by rewrite run_snoc_action.
Qed.

(** C4 (amended): immediately after the evaluation of an entry that is over
    its user's limit and leaves the user with at least [TRIGGER_COUNT]
    triggers, the user is in the violator set and [violator_ips] of its email
    contains the user's concurrent addresses. *)
Theorem violator_ips_cover_promoting_entry s panel node_name entry :
  reachable cfg s →
  let user := (UserTracker.process_entry entry node_name (tracker s)).2 in
  let s' := exec cfg s (Entry panel node_name entry) in
  promotes cfg panel user (timestamp entry) s →
  email entry ∈ _current_violators s' ∧
  UserTracker.get_user (email entry) (tracker s') = Some user ∧
  ∃ ips, _violator_ips s' !! email entry = Some ips ∧
         concurrent_ips cfg user ⊆ ips.
Proof.
  intros [Hk Hi]%reachable_invariants user s' Hp. subst s'. cbn [exec].
  rewrite on_entry_eq. fold user.
  pose proof (process_entry_email entry node_name (tracker s) Hk) as Hem.
  fold user in Hem.
  set (s0 := set_tracker _ s).
  assert (violators_have_ips s0) as Hi0 by done.
  destruct (check_concurrent_ips_shape panel user (timestamp entry) s0)
    as (Ht & _ & _ & [(Hnp & _)|(_ & Hv & Hcase)]); [done|].
  rewrite Ht, Hv, Hem in *. split_and!; [|apply process_entry_lookup_eq|].
  { apply elem_of_union. right. by apply elem_of_singleton. }
  destruct Hcase as [(Hin & _ & [(ips & Hips & -> & _)|(Hnone & _)])
                    |(_ & _ & -> & _)].
  - exists (ips ∪ concurrent_ips cfg user).
    rewrite lookup_insert_eq. split; [done|apply union_subseteq_r].
  - destruct (Hi0 _ Hin) as [? ?]. congruence.
  - exists (∅ ∪ concurrent_ips cfg user).
    rewrite lookup_insert_eq. split; [done|apply union_subseteq_r].
Qed.

(** C2: when a sweep prunes the triggers of a violator against
    [now - TRIGGER_PERIOD] and fewer than [TRIGGER_COUNT] remain, it removes
    the email from the violator set and deletes its [violator_first_seen]
    and [violator_ips]; and whenever the email later enters the violator set
    again, it does so with [violator_first_seen] set to that entry's
    timestamp and [violator_ips] holding that entry's concurrent addresses
    only. *)
Theorem sweep_demotion_is_lossless w panel now order s em :
  reachable cfg s →
  PanelAPI.is_loaded panel = true →
  order ≡ₚ elements (_current_violators s) →
  em ∈ _current_violators s →
  demotable cfg now em s →
  reaches cfg w panel now order em s →
  let s' := state_of (_check_limits cfg w panel now order s).1 in
  demoted em s' ∧
  ∀ later panel' node_name entry,
    email entry = em →
    let s2 := run cfg later s' in
    let s3 := exec cfg s2 (Entry panel' node_name entry) in
    em ∉ _current_violators s2 →
    em ∈ _current_violators s3 →
    _violator_first_seen s3 !! em = Some (timestamp entry) ∧
    _violator_ips s3 !! em =
    Some (concurrent_ips cfg
            (UserTracker.process_entry entry node_name (tracker s2)).2).
Proof.
  intros [Hk _]%reachable_invariants Hloaded Hperm Hin Hd Hreach s'.
  assert (tracker s' = tracker s) as Htr by apply check_limits_tracker.
  split.
  - subst s'. unfold _check_limits. rewrite Hloaded.
    pose proof (violators_loop_demotes cfg w panel now em order s Hd Hreach)
      as Hloop.
    by destruct (violators_loop cfg w panel now order s) as [[s1|s1] evs1].
  - intros later panel' node_name entry Hem s2 s3 Hout Hback. subst s3.
    cbn [exec] in *. rewrite on_entry_eq in *.
    assert (keyed_by_email (tracker s2)) as Hk2.
    { apply run_keyed. by rewrite Htr. }
    pose proof (process_entry_email entry node_name (tracker s2) Hk2) as Hue.
    set (user := (UserTracker.process_entry entry node_name (tracker s2)).2) in *.
    set (s0 := set_tracker _ s2) in *.
    destruct (check_concurrent_ips_shape panel' user (timestamp entry) s0)
      as (_ & _ & _ & [(_ & Hv & _)|(_ & Hv & Hcase)]).
    { by rewrite Hv in Hback. }
    rewrite Hue, Hem in *.
    destruct Hcase as [(? & _)|(_ & -> & -> & _)]; [done|].
    rewrite !lookup_insert_eq. split; [done|]. f_equal. apply (left_id_L ∅ (∪)).
Qed.

End EngineRuns.

(** * Theorems on the token check *)

Section ApiFacts.
Import Api ApiSpec.

(** C9 (amended): when a non-empty API token is configured, every request
    that carries no token, or a token other than the configured one, is
    answered with status 401 and body [{"error": "Unauthorized"}], and the
    wrapped handler is not invoked; when no API token is configured, every
    request is passed to the handler, once and unchanged, and answered
    with the handler's response. *)
Theorem auth_middleware_rejects cfg request handler :
  (api_token cfg ≠ EmptyString →
   token_of request = EmptyString ∨ token_of request ≠ api_token cfg →
   _auth_middleware cfg request handler = (unauthorized, []) ∧
   status unauthorized = 401 ∧
   body unauthorized = [("error", "Unauthorized")]) ∧
  (api_token cfg = EmptyString →
   _auth_middleware cfg request handler = (handler request, [request])).
Proof.
  unfold _auth_middleware. split.
  - intros Hcfg Hbad. rewrite decide_True by done.
    rewrite decide_True; [done|].
    destruct Hbad as [Hnone|Hne]; [congruence|done].
  - intros Hcfg. rewrite decide_False; [done|]. by intros [].
Qed.

Lemma auth_middleware_rejects_witness :
  (_auth_middleware EngineSpec.cfg0 bare_request ok_handler = (unauthorized, []) ∧
   status unauthorized = 401 ∧
   body unauthorized = [("error", "Unauthorized")]) ∧
  _auth_middleware open_cfg (bearer_request "wrong") ok_handler
  = (ok_handler (bearer_request "wrong"), [bearer_request "wrong"]).
Proof.
  split.
  - apply (auth_middleware_rejects EngineSpec.cfg0 bare_request ok_handler).
    + discriminate.
    + left. reflexivity.
  - apply (auth_middleware_rejects open_cfg (bearer_request "wrong") ok_handler).
    reflexivity.
Defined.

(** C9 as stated fails: without a configured token, a request that carries
    no token reaches the handler. *)
Lemma auth_middleware_open_without_token :
  ¬ rejects_bad_token open_cfg bare_request ok_handler.
Proof.
  intros H. specialize (H (or_introl eq_refl)).
  vm_compute in H. discriminate H.
Qed.

End ApiFacts.

(** * The scenarios *)

Section Scenarios.
Import Server EngineSpec.

Lemma violator_state_reachable : reachable cfg0 violator_state.
Proof.
  apply reachable_run; [constructor|].
  apply entries_admissible. repeat constructor; by intros [].
Qed.

Lemma pre_state_reachable : reachable cfg0 pre_state.
Proof.
  apply reachable_run; [constructor|].
  apply entries_admissible. repeat constructor; by intros [].
Qed.

Lemma check_concurrent_ips_over_limit_witness :
  _user_triggers (state_of eval_outcome) !! "a@x" =
  Some [1000000; 6000000; 11000000; 16000000; 21000000] ∧
  is_done eval_outcome = true ∧
  "a@x" ∈ _current_violators (state_of eval_outcome) ∧
  _violator_first_seen (state_of eval_outcome) !! "a@x" = Some 21000000 ∧
  _violator_ips (state_of eval_outcome) !! "a@x" =
  Some (∅ ∪ concurrent_ips cfg0 eval_user).
Proof.
  destruct (check_concurrent_ips_over_limit cfg0 panel0 eval_user 21000000
              eval_state 2) as [Htr Hrest].
  - split_and!; [|vm_compute; reflexivity..].
    intros H. vm_compute in H. discriminate H.
  - reflexivity.
  - split; [exact Htr|]. apply Hrest.
    + vm_compute. discriminate.
    + intros H. vm_compute in H. discriminate H.
Defined.

Lemma sweep_demotion_is_lossless_witness :
  demoted "a@x" (state_of sweep_result.1).
Proof.
  refine (proj1 (sweep_demotion_is_lossless cfg0 quiet_world panel0 (timedelta 60)
                   ["a@x"] violator_state "a@x"
                   violator_state_reachable _ _ _ _ _)).
  - reflexivity.
  - vm_compute. reflexivity.
  - vm_compute. reflexivity.
  - split.
    + eexists. vm_compute. reflexivity.
    + eexists. split; vm_compute; reflexivity.
  - exists [], []. split; reflexivity.
Defined.

Lemma violator_was_promoted_by_entry_witness :
  ∃ before a after ts l,
    promotion = before ++ a :: after ∧
    is_entry_for "a@x" ts a ∧
    ("a@x" ∉ _current_violators (run cfg0 before (new cfg0))) ∧
    "a@x" ∈ _current_violators (run cfg0 (before ++ [a]) (new cfg0)) ∧
    _user_triggers (run cfg0 (before ++ [a]) (new cfg0)) !! "a@x" = Some l ∧
    _trigger_count cfg0 ≤ Z.of_nat (length l) ∧
    Forall (λ x, ts - timedelta (_trigger_period cfg0) ≤ x) l ∧
    ∀ since, since `prefix_of` after →
             "a@x" ∈ _current_violators (run cfg0 (before ++ a :: since) (new cfg0)).
Proof.
  apply (violator_was_promoted_by_entry cfg0 promotion "a@x").
  vm_compute. reflexivity.
Defined.

(** C3 as stated fails: after the bursts that make the user a violator, a
    single entry a quarter of an hour later leaves the user in the
    violator set with no trigger within [TRIGGER_PERIOD] of that entry. *)
Lemma violator_without_recent_triggers :
  ¬ violators_have_recent_triggers cfg0 (promotion ++ [late_entry]).
Proof.
  intros H. specialize (H "a@x" (timedelta 1000)).
  vm_compute in H. by apply H.
Qed.

Lemma violator_ips_cover_promoting_entry_witness :
  "a@x" ∈ _current_violators (exec cfg0 pre_state (Entry panel0 "n1" last_burst_entry)) ∧
  UserTracker.get_user "a@x"
    (tracker (exec cfg0 pre_state (Entry panel0 "n1" last_burst_entry)))
  = Some eval_user ∧
  ∃ ips,
    _violator_ips (exec cfg0 pre_state (Entry panel0 "n1" last_burst_entry)) !! "a@x"
    = Some ips ∧
    concurrent_ips cfg0 eval_user ⊆ ips.
Proof.
  apply (violator_ips_cover_promoting_entry cfg0 pre_state panel0 "n1"
           last_burst_entry pre_state_reachable).
  exists 2. split; [|split].
  - split_and!; [|vm_compute; reflexivity..].
    intros H. vm_compute in H. discriminate H.
  - discriminate.
  - vm_compute. discriminate.
Defined.

(** C4 as stated fails: right after the evaluation of the late entry the
    user is still in the violator set, and the address of that entry is
    concurrent but not among the recorded [violator_ips]. *)
Lemma violator_ips_miss_late_address :
  ¬ violator_ips_cover_recent cfg0 late_state.
Proof.
  intros H.
  specialize (H "a@x"
                (default (UserInfo.new "a@x")
                   (UserTracker.get_user "a@x" (tracker late_state)))).
  assert ("9.9.9.9" ∈ default ∅ (_violator_ips late_state !! "a@x")) as Hin.
  { apply H; vm_compute; reflexivity. }
  vm_compute in Hin. discriminate Hin.
Qed.

Lemma check_limits_not_loaded_witness :
  _check_limits cfg0 quiet_world PanelAPI.new (timedelta 3600) ["a@x"] violator_state
  = (Done violator_state, []).
Proof.
  apply (check_limits_not_loaded cfg0 quiet_world PanelAPI.new (timedelta 3600)
           ["a@x"] violator_state).
  reflexivity.
Defined.

Lemma add_to_banlist_notifications_witness :
  timedelta (_notification_interval cfg0) ≤ timedelta 400 - 0 ∧
  (∃ rep, SendViolation rep ∈
            (_add_to_banlist cfg0 (fresh_world (timedelta 400) false) panel0
               violator_user 3 2 379 notified_state).2) ∧
  _last_notification
    (state_of (_add_to_banlist cfg0 (fresh_world (timedelta 400) false) panel0
                 violator_user 3 2 379 notified_state).1)
  = _last_notification notified_state.
Proof.
  destruct (add_to_banlist_notifications cfg0 (banned_world (timedelta 400)) panel0
              violator_user 3 2 379 notified_state) as (Hcont & _).
  destruct (add_to_banlist_notifications cfg0 (fresh_world (timedelta 400) false)
              panel0 violator_user 3 2 379 notified_state)
    as (_ & Hnew & _ & Hfail).
  split_and!.
  - eapply Hcont.
    + vm_compute. apply list_elem_of_further, list_elem_of_here.
    + vm_compute. reflexivity.
  - eapply Hnew; reflexivity.
  - eapply Hfail; [reflexivity|]. intros msg _ _. reflexivity.
Defined.

End Scenarios.

(** * Further theorems on the tracker *)

Section MoreTrackerFacts.
Import UserTracker TrackerSpec MoreSpec.

(** ** Subnets *)

Lemma split_on_no_sep sep s :
  has_char sep s = false → split_on sep s = [s].
Proof.
  induction s as [|a s IH]; [done|]. simpl.
  destruct (decide (a = sep)); [done|]. intros Hs. by rewrite IH.
Qed.

Lemma split_on_app sep a rest :
  has_char sep a = false →
  split_on sep (String.append a (String sep rest)) = a :: split_on sep rest.
Proof.
  induction a as [|x a IH]; simpl.
  - intros _. by rewrite decide_True.
  - destruct (decide (x = sep)); [done|]. intros Ha. by rewrite IH.
Qed.

(** X1: for an address of four dot-free parts, [get_subnet_24] is the
    first three parts joined by dots; the result is left as it is by a
    second application. *)
Theorem get_subnet_24_dotted_quad a b c d :
  has_char "." a = false → has_char "." b = false →
  has_char "." c = false → has_char "." d = false →
  get_subnet_24 (dotted a b c d) =
  String.append a (String "." (String.append b (String "." c))) ∧
  get_subnet_24 (get_subnet_24 (dotted a b c d)) = get_subnet_24 (dotted a b c d).
Proof.
  intros Ha Hb Hc Hd.
  assert (get_subnet_24 (dotted a b c d) =
          String.append a (String "." (String.append b (String "." c)))) as Hq.
  { unfold get_subnet_24, dotted.
    rewrite !split_on_app, (split_on_no_sep _ d) by done. done. }
  split; [done|]. rewrite Hq. unfold get_subnet_24.
  rewrite !split_on_app, (split_on_no_sep _ c) by done. done.
Qed.

Lemma get_subnet_24_dotted_quad_witness :
  get_subnet_24 "79.137.136.214" = "79.137.136" ∧
  get_subnet_24 (get_subnet_24 "79.137.136.214") = get_subnet_24 "79.137.136.214".
Proof.
  apply (get_subnet_24_dotted_quad "79" "137" "136" "214"); reflexivity.
Defined.

Lemma size_list_to_set_le (l : list string) :
  (size (list_to_set (C:=gset string) l) ≤ length l)%nat.
Proof.
  induction l as [|x l IH].
  - rewrite list_to_set_nil, size_empty. done.
  - rewrite list_to_set_cons, size_union_alt, size_singleton. cbn [length].
    assert (size (list_to_set (C:=gset string) l ∖ {[x]}) ≤ size (list_to_set (C:=gset string) l))%nat.
    { apply subseteq_size. by intros y [? _]%elem_of_difference. }
    lia.
Qed.

Lemma group_ips_by_subnet_size ips :
  (size (group_ips_by_subnet ips) ≤ size ips)%nat.
Proof.
  unfold group_ips_by_subnet, set_map.
  etrans; [apply size_list_to_set_le|]. by rewrite length_fmap.
Qed.

Lemma group_ips_by_subnet_same (ips : gset string) :
  (∀ ip1 ip2, ip1 ∈ ips → ip2 ∈ ips → get_subnet_24 ip1 = get_subnet_24 ip2) →
  (size (group_ips_by_subnet ips) ≤ 1)%nat.
Proof.
  intros Hsame. destruct (decide (ips = ∅)) as [->|Hne].
  - unfold group_ips_by_subnet. rewrite set_map_empty, size_empty. lia.
  - apply set_choose_L in Hne as [ip0 Hip0].
    rewrite <- (size_singleton (C:=gset string) (get_subnet_24 ip0)).
    apply subseteq_size. intros sn (ip & -> & Hip)%elem_of_map.
    apply elem_of_singleton. by apply Hsame.
Qed.

(** X2: grouping by /24 never raises the count of recent addresses, and
    addresses of one subnet count as at most one. *)
Theorem recent_ip_count_grouped u window_s min_requests :
  (UserInfo.recent_ip_count window_s min_requests true u ≤
   UserInfo.recent_ip_count window_s min_requests false u)%nat ∧
  ((∀ ip1 ip2,
      ip1 ∈ UserInfo.get_recent_ips window_s min_requests u →
      ip2 ∈ UserInfo.get_recent_ips window_s min_requests u →
      get_subnet_24 ip1 = get_subnet_24 ip2) →
   (UserInfo.recent_ip_count window_s min_requests true u ≤ 1)%nat).
Proof.
  unfold UserInfo.recent_ip_count. split; [apply group_ips_by_subnet_size|].
  apply group_ips_by_subnet_same.
Qed.

(** ** Windows *)

Lemma elem_of_get_recent_ips u window_s min_requests ip :
  ip ∈ UserInfo.get_recent_ips window_s min_requests u ↔
  ∃ stats ls,
    UserInfo.ip_stats u !! ip = Some stats ∧
    UserInfo.last_seen u = Some ls ∧
    ls - timedelta window_s ≤ IPStats.last_seen stats ∧
    min_requests ≤ IPStats.request_count stats.
Proof.
  unfold UserInfo.get_recent_ips.
  destruct (UserInfo.last_seen u) as [ls|].
  - rewrite elem_of_dom. split.
    + intros [stats [Hs [H1 H2]]%map_lookup_filter_Some]. simpl in *. eauto 10.
    + intros (stats & ls' & Hs & [= <-] & H1 & H2).
      exists stats. by apply map_lookup_filter_Some.
  - split; [by intros ?%elem_of_empty|]. by intros (? & ? & _ & ? & _).
Qed.

(** X3: a larger window, or a smaller request threshold, only adds
    addresses to [get_recent_ips]. *)
Theorem get_recent_ips_monotone u w w' m m' :
  w ≤ w' → m' ≤ m →
  UserInfo.get_recent_ips w m u ⊆ UserInfo.get_recent_ips w' m' u.
Proof.
  intros Hw Hm ip.
  rewrite !elem_of_get_recent_ips.
  intros (stats & ls & Hs & Hls & H1 & H2).
  exists stats, ls. split_and!; [done..| |lia].
  unfold timedelta in *. lia.
Qed.

Lemma get_recent_ips_monotone_witness :
  UserInfo.get_recent_ips 2 1 in_order_user ⊆ UserInfo.get_recent_ips 60 1 in_order_user.
Proof. apply (get_recent_ips_monotone in_order_user 2 60 1 1); lia. Defined.

(** ** Expiry *)

Lemma cleanup_old_ips_ip_stats w u ls :
  UserInfo.last_seen u = Some ls →
  UserInfo.ip_stats (UserInfo.cleanup_old_ips w u).1 =
  filter (λ kv, ¬ UserInfo.is_stale (ls - timedelta w) kv) (UserInfo.ip_stats u).
Proof.
  intros Hls. unfold UserInfo.cleanup_old_ips. rewrite Hls. cbn [fst UserInfo.ip_stats].
  apply map_filter_ext. intros ip stats Hs. cbn [fst].
  rewrite not_elem_of_dom, map_lookup_filter_None. split.
  - intros [Hn|Hn]; [congruence|]. by apply Hn.
  - intros Hn. right. intros stats' Hs'. congruence.
Qed.

Lemma cleanup_old_ips_lookup w u ls ip stats :
  UserInfo.last_seen u = Some ls →
  UserInfo.ip_stats (UserInfo.cleanup_old_ips w u).1 !! ip = Some stats ↔
  UserInfo.ip_stats u !! ip = Some stats ∧
  ls - timedelta w ≤ IPStats.last_seen stats.
Proof.
  intros Hls. rewrite (cleanup_old_ips_ip_stats w u ls Hls).
  rewrite map_lookup_filter_Some. unfold UserInfo.is_stale. cbn [snd].
  split; intros [? ?]; (split; [done|lia]).
Qed.

Lemma cleanup_old_ips_recent_eq u w w' m :
  w' ≤ w →
  UserInfo.get_recent_ips w' m (UserInfo.cleanup_old_ips w u).1 =
  UserInfo.get_recent_ips w' m u.
Proof.
  intros Hw. apply set_eq. intros ip. rewrite !elem_of_get_recent_ips.
  destruct (cleanup_old_ips_fields w u) as (_ & Hl & _). cbn zeta in Hl. rewrite Hl.
  destruct (UserInfo.last_seen u) as [ls|] eqn:Hls.
  - split.
    + intros (stats & ls' & Hs & Hrest).
      apply (cleanup_old_ips_lookup w u ls ip stats Hls) in Hs as [Hs _]. eauto.
    + intros (stats & ls' & Hs & [= <-] & H1 & H2). exists stats, ls.
      split_and!; [|done..].
      apply (cleanup_old_ips_lookup w u ls ip stats Hls).
      split; [done|]. unfold timedelta in *. lia.
  - split; by intros (? & ? & _ & ? & _).
Qed.

(** X4: [cleanup_old_ips] removes no address that [get_recent_ips] reports
    for a window up to the cleanup window. *)
Theorem cleanup_old_ips_keeps_recent u w w' m :
  w' ≤ w →
  UserInfo.get_recent_ips w' m (UserInfo.cleanup_old_ips w u).1 =
  UserInfo.get_recent_ips w' m u.
Proof. apply cleanup_old_ips_recent_eq. Qed.

Lemma cleanup_old_ips_keeps_recent_witness :
  UserInfo.get_recent_ips 2 1 (UserInfo.cleanup_old_ips 30 in_order_user).1 =
  UserInfo.get_recent_ips 2 1 in_order_user.
Proof. apply (cleanup_old_ips_keeps_recent in_order_user 30 2 1). lia. Defined.

Lemma cleanup_old_ips_idemp u w :
  UserInfo.cleanup_old_ips w (UserInfo.cleanup_old_ips w u).1 =
  ((UserInfo.cleanup_old_ips w u).1, 0%nat).
Proof.
  destruct (UserInfo.last_seen u) as [ls|] eqn:Hls.
  2:{ unfold UserInfo.cleanup_old_ips. rewrite Hls. cbn [fst snd]. by rewrite Hls. }
  set (u1 := (UserInfo.cleanup_old_ips w u).1).
  assert (UserInfo.last_seen u1 = Some ls) as Hls1.
  { destruct (cleanup_old_ips_fields w u) as (_ & Hl & _). cbn zeta in Hl.
    subst u1. by rewrite Hl. }
  assert (filter (UserInfo.is_stale (ls - timedelta w)) (UserInfo.ip_stats u1) = ∅)
    as Hnone.
  { apply map_empty_filter_2. intros ip stats Hs Hstale.
    apply (cleanup_old_ips_lookup w u ls ip stats Hls) in Hs as [_ ?].
    unfold UserInfo.is_stale in Hstale. cbn [snd] in Hstale. lia. }
  unfold UserInfo.cleanup_old_ips at 1. rewrite Hls1, Hnone, dom_empty_L.
  rewrite size_empty. f_equal.
  rewrite !map_filter_id by (intros; apply not_elem_of_empty).
  rewrite <- Hls1. clearbody u1. by destruct u1.
Qed.

(** X5: [cleanup_old_ips] returns the number of addresses it removed; every
    address it leaves was seen within the window before the user's
    [last_seen]; and a second call removes nothing. *)
Theorem cleanup_old_ips_exact u w :
  size (UserInfo.ip_stats u) =
  (size (UserInfo.ip_stats (UserInfo.cleanup_old_ips w u).1) +
   (UserInfo.cleanup_old_ips w u).2)%nat ∧
  (∀ ls ip stats,
     UserInfo.last_seen u = Some ls →
     UserInfo.ip_stats (UserInfo.cleanup_old_ips w u).1 !! ip = Some stats →
     ls - timedelta w ≤ IPStats.last_seen stats) ∧
  UserInfo.cleanup_old_ips w (UserInfo.cleanup_old_ips w u).1 =
  ((UserInfo.cleanup_old_ips w u).1, 0%nat).
Proof.
  destruct (UserInfo.last_seen u) as [ls|] eqn:Hls.
  2:{ unfold UserInfo.cleanup_old_ips. rewrite Hls. cbn [fst snd]. rewrite Hls.
      split_and!; [lia|done|done]. }
  split_and!.
  - rewrite (cleanup_old_ips_ip_stats w u ls Hls).
    unfold UserInfo.cleanup_old_ips. rewrite Hls. cbn [snd].
    rewrite size_dom.
    rewrite <- (map_filter_union_complement (UserInfo.is_stale (ls - timedelta w))
                  (UserInfo.ip_stats u)) at 1.
    rewrite map_size_disj_union by apply map_disjoint_filter_complement. lia.
  - intros ls' ip stats [= <-] Hs.
    by apply (cleanup_old_ips_lookup w u ls ip stats Hls) in Hs as [_ ?].
  - apply cleanup_old_ips_idemp.
Qed.

(** What [cleanup_old_data] leaves of the users. *)
Lemma cleanup_old_data_users tr lt :
  _latest_timestamp tr = Some lt →
  _users (cleanup_old_data tr).1 =
  (λ u, (UserInfo.cleanup_old_ips (window_seconds tr) u).1) <$>
    filter (λ kv, ¬ is_expired (lt - timedelta (max_age_seconds tr)) kv.2) (_users tr).
Proof. intros Hlt. unfold cleanup_old_data. by rewrite Hlt. Qed.

Lemma is_expired_cleanup_old_ips cutoff w u :
  is_expired cutoff (UserInfo.cleanup_old_ips w u).1 ↔ is_expired cutoff u.
Proof.
  unfold is_expired. destruct (cleanup_old_ips_fields w u) as (_ & Hl & _).
  cbn zeta in Hl. by rewrite Hl.
Qed.

(** X6: [cleanup_old_data] keeps exactly the users whose [last_seen] is not
    older than the latest timestamp minus the retention, each with its stale
    addresses removed, and returns the number of users it dropped. *)
Theorem cleanup_old_data_exact tr lt :
  _latest_timestamp tr = Some lt →
  (∀ em u',
     _users (cleanup_old_data tr).1 !! em = Some u' ↔
     ∃ u, _users tr !! em = Some u ∧
          ¬ is_expired (lt - timedelta (max_age_seconds tr)) u ∧
          u' = (UserInfo.cleanup_old_ips (window_seconds tr) u).1) ∧
  size (_users tr) =
  (size (_users (cleanup_old_data tr).1) + (cleanup_old_data tr).2)%nat.
Proof.
  intros Hlt. split.
  - intros em u'. rewrite (cleanup_old_data_users tr lt Hlt).
    rewrite lookup_fmap, fmap_Some. split.
    + intros (u & [Hu Hne]%map_lookup_filter_Some & ->). eauto.
    + intros (u & Hu & Hne & ->). exists u. split; [|done].
      by apply map_lookup_filter_Some.
  - rewrite (cleanup_old_data_users tr lt Hlt), map_size_fmap.
    unfold cleanup_old_data. rewrite Hlt. cbn [snd].
    rewrite <- (map_filter_union_complement
                  (λ kv, is_expired (lt - timedelta (max_age_seconds tr)) kv.2)
                  (_users tr)) at 1.
    rewrite map_size_disj_union by apply map_disjoint_filter_complement. lia.
Qed.

(** X7: [cleanup_old_data] is idempotent: run again (no entry in between)
    it changes nothing and reports no removed user. *)
Theorem cleanup_old_data_idempotent tr :
  cleanup_old_data (cleanup_old_data tr).1 = ((cleanup_old_data tr).1, 0%nat).
Proof.
  destruct (_latest_timestamp tr) as [lt|] eqn:Hlt.
  2:{ unfold cleanup_old_data. rewrite Hlt. cbn [fst]. by rewrite Hlt. }
  set (tr1 := (cleanup_old_data tr).1).
  assert (_latest_timestamp tr1 = Some lt ∧ window_seconds tr1 = window_seconds tr ∧
          max_age_seconds tr1 = max_age_seconds tr) as (Hlt1 & Hw1 & Ha1).
  { subst tr1. unfold cleanup_old_data. by rewrite Hlt. }
  pose proof (cleanup_old_data_users tr lt Hlt) as Hus. fold tr1 in Hus.
  set (cutoff := lt - timedelta (max_age_seconds tr)) in *.
  assert (∀ em u, _users tr1 !! em = Some u →
            ¬ is_expired cutoff u ∧
            (UserInfo.cleanup_old_ips (window_seconds tr) u).1 = u) as Hfix.
  { intros em u. rewrite Hus, lookup_fmap, fmap_Some.
    intros (u0 & [Hu0 Hne]%map_lookup_filter_Some & ->). cbn [snd] in Hne.
    split; [by rewrite is_expired_cleanup_old_ips|].
    by rewrite cleanup_old_ips_idemp. }
  unfold cleanup_old_data at 1. rewrite Hlt1, Hw1, Ha1. fold cutoff. f_equal.
  - assert (filter (λ kv, ¬ is_expired cutoff kv.2) (_users tr1) = _users tr1) as ->.
    { apply map_filter_id. intros em u Hu. by apply (Hfix em u). }
    assert ((λ u, (UserInfo.cleanup_old_ips (window_seconds tr) u).1) <$> _users tr1
            = _users tr1) as ->.
    { apply map_eq. intros em. rewrite lookup_fmap.
      destruct (_users tr1 !! em) as [u|] eqn:Hu; [|done]. cbn.
      f_equal. by apply (Hfix em u). }
    rewrite <- Hw1, <- Ha1, <- Hlt1. by destruct tr1.
  - apply map_size_empty_iff, map_empty_filter_2.
    intros em u Hu. cbn [snd]. intros Hexp. by destruct (Hfix em u Hu).
Qed.

(** ** The request history *)

Lemma add_request_recent_requests ts src dst port act node_name u :
  let r := mkRequestLog ts src dst port act node_name in
  let u' := UserInfo.add_request ts src dst port act node_name u in
  UserInfo.recent_requests u' `suffix_of` (UserInfo.recent_requests u ++ [r]) ∧
  last (UserInfo.recent_requests u') = Some r ∧
  length (UserInfo.recent_requests u') =
  min UserInfo._max_requests (length (UserInfo.recent_requests u) + 1).
Proof.
  intros r u'. subst u'. unfold UserInfo.add_request. cbn [UserInfo.recent_requests].
  fold r. set (appended := UserInfo.recent_requests u ++ [r]).
  assert (length appended = (length (UserInfo.recent_requests u) + 1)%nat) as Hlen.
  { subst appended. rewrite length_app. cbn. lia. }
  assert (last appended = Some r) as Hlast by apply last_snoc.
  destruct (decide (UserInfo._max_requests < length appended)%nat) as [Hbig|Hsmall].
  - unfold UserInfo.last_n. split_and!.
    + apply suffix_drop.
    + rewrite last_lookup, lookup_drop, length_drop.
      rewrite last_lookup in Hlast. rewrite <- Hlast. f_equal.
      unfold UserInfo._max_requests in *. lia.
    + rewrite length_drop. unfold UserInfo._max_requests in *. lia.
  - split_and!; [done..|]. unfold UserInfo._max_requests in *. lia.
Qed.

(** X8: [add_request] appends the request and keeps the newest
    [_max_requests] ones, in order: the result is a suffix of the old list
    followed by the new request, ends with it, and has
    [min 100 (old length + 1)] elements. *)
Theorem add_request_keeps_newest ts src dst port act node_name u :
  let r := mkRequestLog ts src dst port act node_name in
  let u' := UserInfo.add_request ts src dst port act node_name u in
  UserInfo.recent_requests u' `suffix_of` (UserInfo.recent_requests u ++ [r]) ∧
  last (UserInfo.recent_requests u') = Some r ∧
  length (UserInfo.recent_requests u') =
  min UserInfo._max_requests (length (UserInfo.recent_requests u) + 1).
Proof. apply add_request_recent_requests. Qed.

Lemma process_entry_recent_requests e n tr :
  UserInfo.recent_requests (process_entry e n tr).2 =
  UserInfo.recent_requests
    (UserInfo.add_request (timestamp e) (source_ip e) (destination e)
       (destination_port e) (action e) n
       (default (UserInfo.new (email e)) (_users tr !! email e))).
Proof. reflexivity. Qed.

Lemma cleanup_old_ips_recent_requests w u :
  UserInfo.recent_requests (UserInfo.cleanup_old_ips w u).1 =
  UserInfo.recent_requests u.
Proof. unfold UserInfo.cleanup_old_ips. by destruct (UserInfo.last_seen u). Qed.

(** X9: after any sequence of tracker operations, every user holds at most
    100 requests, and the newest of them carries the timestamp that is the
    user's [last_seen]. *)
Theorem recent_requests_bounded ops window max_age em u :
  _users (run ops (new window max_age)) !! em = Some u → requests_ok u.
Proof.
  revert em u. induction ops as [|o ops IH] using rev_ind; intros em u Hu.
  { cbn in Hu. by rewrite lookup_empty in Hu. }
  rewrite run_snoc in Hu. destruct o as [e n|]; cbn [apply_op] in Hu.
  - set (tr := run ops (new window max_age)) in *.
    destruct (decide (em = email e)) as [->|Hem].
    + pose proof (process_entry_lookup_eq e n tr) as Heq.
      assert (u = (process_entry e n tr).2) as -> by congruence.
      unfold requests_ok.
      rewrite process_entry_recent_requests, process_entry_last_seen.
      destruct (add_request_recent_requests (timestamp e) (source_ip e)
                  (destination e) (destination_port e) (action e) n
                  (default (UserInfo.new (email e)) (_users tr !! email e)))
        as (_ & -> & ->).
      split; [lia|done].
    + rewrite process_entry_lookup_ne in Hu by done. by eapply IH.
  - apply cleanup_old_data_lookup in Hu as (u0 & Hu0 & [->| ->]);
      [by eapply IH|].
    specialize (IH _ _ Hu0). unfold requests_ok in *.
    rewrite cleanup_old_ips_recent_requests.
    destruct (cleanup_old_ips_fields
                (window_seconds (run ops (new window max_age))) u0) as (_ & Hl & _).
    cbn zeta in Hl. by rewrite Hl.
Qed.

(** ** The totals and the clock *)

Lemma max_of_snoc l x :
  max_of (l ++ [x]) =
  Some (match max_of l with None => x | Some m => Z.max m x end).
Proof.
  induction l as [|y l IH]; [done|].
  cbn [app max_of]. rewrite IH. destruct (max_of l); f_equal; lia.
Qed.

(** X10: the tracker counts every processed entry in [_total_requests] and
    every one with action [BLOCK] in [_total_blocked]; cleanup changes
    neither. *)
Theorem totals_count_entries ops window max_age :
  let tr := run ops (new window max_age) in
  _total_requests tr = Z.of_nat (length (entries_of ops)) ∧
  _total_blocked tr =
  Z.of_nat (length (filter (λ e, action e = "BLOCK") (entries_of ops))).
Proof.
  induction ops as [|o ops IH] using rev_ind; [done|].
  cbn zeta in *. rewrite run_snoc. destruct IH as [IH1 IH2].
  destruct o as [e n|]; cbn [apply_op].
  - rewrite entries_of_snoc_entry, filter_app, !length_app.
    cbn [process_entry fst _total_requests _total_blocked]. rewrite IH1, IH2.
    split; [cbn; lia|].
    destruct (decide (action e = "BLOCK")) as [Hb|Hb].
    + rewrite bool_decide_eq_true_2, filter_cons_True by done. cbn. lia.
    + rewrite bool_decide_eq_false_2, filter_cons_False by done. cbn. lia.
  - rewrite entries_of_snoc_cleanup. unfold cleanup_old_data.
    by destruct (_latest_timestamp _).
Qed.

(** X11: [_latest_timestamp] is the maximum timestamp over all processed
    entries, in whatever order they arrive. *)
Theorem latest_timestamp_is_max ops window max_age :
  _latest_timestamp (run ops (new window max_age)) =
  max_of (timestamp <$> entries_of ops).
Proof.
  induction ops as [|o ops IH] using rev_ind; [done|].
  rewrite run_snoc. destruct o as [e n|]; cbn [apply_op].
  - rewrite entries_of_snoc_entry, fmap_app.
    change (timestamp <$> [e]) with [timestamp e]. rewrite max_of_snoc.
    cbn [process_entry fst _latest_timestamp]. rewrite IH.
    destruct (max_of _) as [m|]; [|done].
    case_decide; f_equal; lia.
  - rewrite entries_of_snoc_cleanup. unfold cleanup_old_data.
    rewrite IH. by destruct (max_of _).
Qed.

(** ** Request counts *)

Lemma stored_count_process_entry e n tr em ip :
  stored_count (process_entry e n tr).1 em ip =
  stored_count tr em ip +
  (if decide (email e = em ∧ source_ip e = ip) then 1 else 0).
Proof.
  unfold stored_count. destruct (decide (em = email e)) as [->|Hem].
  - rewrite process_entry_lookup_eq, process_entry_ip_stats. cbn [UserInfo.add_ip UserInfo.ip_stats].
    destruct (decide (ip = source_ip e)) as [->|Hip].
    + rewrite lookup_insert_eq, decide_True by done.
      destruct (_users tr !! email e) as [u0|]; cbn.
      * destruct (UserInfo.ip_stats u0 !! source_ip e); cbn; lia.
      * rewrite lookup_empty. done.
    + rewrite lookup_insert_ne by done.
      rewrite decide_False by (intros [_ ?]; done).
      destruct (_users tr !! email e) as [u0|]; cbn.
      * destruct (UserInfo.ip_stats u0 !! ip); lia.
      * rewrite lookup_empty. done.
  - rewrite process_entry_lookup_ne by done.
    rewrite decide_False by (intros [? _]; done). lia.
Qed.

Lemma length_pair_timestamps_snoc em ip ops e n :
  Z.of_nat (length (pair_timestamps em ip (ops ++ [ProcessEntry e n]))) =
  Z.of_nat (length (pair_timestamps em ip ops)) +
  (if decide (email e = em ∧ source_ip e = ip) then 1 else 0).
Proof.
  destruct (decide (email e = em ∧ source_ip e = ip)) as [[H1 H2]|Hne].
  - subst em ip. rewrite pair_timestamps_snoc_same, length_app. cbn. lia.
  - rewrite pair_timestamps_snoc_other by done. lia.
Qed.

Lemma request_counts_positive ops window max_age em ip u stats :
  _users (run ops (new window max_age)) !! em = Some u →
  UserInfo.ip_stats u !! ip = Some stats →
  1 ≤ IPStats.request_count stats.
Proof.
  revert em ip u stats.
  induction ops as [|o ops IH] using rev_ind; intros em ip u stats Hu Hip.
  { cbn in Hu. by rewrite lookup_empty in Hu. }
  rewrite run_snoc in Hu. destruct o as [e n|]; cbn [apply_op] in Hu.
  - set (tr := run ops (new window max_age)) in *.
    destruct (decide (em = email e)) as [->|Hem].
    + pose proof (process_entry_lookup_eq e n tr) as Heq.
      assert (u = (process_entry e n tr).2) as -> by congruence.
      rewrite process_entry_ip_stats in Hip. cbn [UserInfo.add_ip UserInfo.ip_stats] in Hip.
      destruct (decide (ip = source_ip e)) as [->|Hne].
      * rewrite lookup_insert_eq in Hip.
        destruct (_users tr !! email e) as [u0|] eqn:Hu0; cbn in Hip.
        -- destruct (UserInfo.ip_stats u0 !! source_ip e) as [s0|] eqn:Hs0;
             injection Hip as <-; cbn; [|lia].
           specialize (IH _ _ _ _ Hu0 Hs0). lia.
        -- rewrite lookup_empty in Hip. injection Hip as <-. cbn. lia.
      * rewrite lookup_insert_ne in Hip by done.
        destruct (_users tr !! email e) as [u0|] eqn:Hu0; cbn in Hip.
        -- by eapply IH.
        -- by rewrite lookup_empty in Hip.
    + rewrite process_entry_lookup_ne in Hu by done. by eapply IH.
  - apply cleanup_old_data_lookup in Hu as (u0 & Hu0 & [->| ->]).
    + by eapply IH.
    + apply cleanup_old_ips_stats in Hip. by eapply IH.
Qed.

Lemma stored_count_nonneg ops window max_age em ip :
  0 ≤ stored_count (run ops (new window max_age)) em ip.
Proof.
  unfold stored_count.
  destruct (_users _ !! em) as [u|] eqn:Hu; [|done].
  destruct (UserInfo.ip_stats u !! ip) as [stats|] eqn:Hs; [|done].
  pose proof (request_counts_positive _ _ _ _ _ _ _ Hu Hs). lia.
Qed.

Lemma stored_count_cleanup tr em ip :
  stored_count (cleanup_old_data tr).1 em ip = stored_count tr em ip ∨
  stored_count (cleanup_old_data tr).1 em ip = 0.
Proof.
  unfold stored_count at 1 3.
  destruct (_users (cleanup_old_data tr).1 !! em) as [u|] eqn:Hu; [|by right].
  destruct (UserInfo.ip_stats u !! ip) as [stats|] eqn:Hs; [|by right].
  left. unfold stored_count.
  apply cleanup_old_data_lookup in Hu as (u0 & -> & [->| ->]).
  - by rewrite Hs.
  - apply cleanup_old_ips_stats in Hs. by rewrite Hs.
Qed.

(** X12: the request count stored for an (email, address) is at least 1 and
    at most the number of processed entries of that pair; without a cleanup
    in between the two are equal. *)
Theorem request_count_counts_entries ops window max_age em ip :
  let tr := run ops (new window max_age) in
  stored_count tr em ip ≤ Z.of_nat (length (pair_timestamps em ip ops)) ∧
  (∀ u stats,
     _users tr !! em = Some u → UserInfo.ip_stats u !! ip = Some stats →
     1 ≤ IPStats.request_count stats) ∧
  (Forall (λ o, ¬ is_cleanup o) ops →
   stored_count tr em ip = Z.of_nat (length (pair_timestamps em ip ops))).
Proof.
  cbn zeta. split_and!.
  - induction ops as [|o ops IH] using rev_ind.
    { unfold stored_count. cbn. by rewrite lookup_empty. }
    rewrite run_snoc. destruct o as [e n|]; cbn [apply_op].
    + rewrite stored_count_process_entry, length_pair_timestamps_snoc. lia.
    + rewrite pair_timestamps_snoc_cleanup.
      pose proof (stored_count_nonneg ops window max_age em ip).
      destruct (stored_count_cleanup (run ops (new window max_age)) em ip); lia.
  - intros u stats. apply request_counts_positive.
  - induction ops as [|o ops IH] using rev_ind; intros Hall.
    { unfold stored_count. cbn. by rewrite lookup_empty. }
    apply Forall_app in Hall as [Hops [Ho _]%Forall_cons].
    rewrite run_snoc. destruct o as [e n|]; cbn [apply_op]; [|by destruct Ho].
    rewrite stored_count_process_entry, length_pair_timestamps_snoc, IH by done.
    done.
Qed.

(** X13: [get_recent_ips] reports exactly the addresses to which
    [get_recent_ips_with_counts] gives a count of at least [min_requests]. *)
Theorem recent_ips_agree_with_counts u window_s min_requests ip :
  ip ∈ UserInfo.get_recent_ips window_s min_requests u ↔
  ∃ n, UserInfo.get_recent_ips_with_counts window_s u !! ip = Some n ∧
       min_requests ≤ n.
Proof.
  rewrite elem_of_get_recent_ips. unfold UserInfo.get_recent_ips_with_counts.
  destruct (UserInfo.last_seen u) as [ls|].
  - setoid_rewrite lookup_fmap_Some. setoid_rewrite map_lookup_filter_Some.
    unfold UserInfo.seen_since. cbn [snd]. split.
    + intros (stats & ls' & Hs & [= <-] & H1 & H2). eauto 10.
    + intros (n & (stats & <- & Hs & H1) & H2). eauto 10.
  - split; [by intros (? & ? & _ & ? & _)|].
    intros (n & Hn & _). by rewrite lookup_empty in Hn.
Qed.

(** ** Shared addresses *)

Lemma size_gt_1 (X : gset string) :
  (1 < size X)%nat ↔ ∃ x y, x ≠ y ∧ x ∈ X ∧ y ∈ X.
Proof.
  split.
  - intros Hsz. destruct (size_pos_elem_of X) as [x Hx]; [lia|].
    assert ({[x]} ⊆ X) as Hsub by (by apply singleton_subseteq_l).
    pose proof (size_difference X {[x]} Hsub) as Hd. rewrite size_singleton in Hd.
    destruct (size_pos_elem_of (X ∖ {[x]})) as [y Hy]; [lia|].
    apply elem_of_difference in Hy as [Hy Hne%not_elem_of_singleton].
    exists x, y. by split_and!.
  - intros (x & y & Hne & Hx & Hy).
    assert ({[x]} ∪ {[y]} ⊆ X) as Hsub.
    { intros z [->%elem_of_singleton| ->%elem_of_singleton]%elem_of_union; done. }
    apply subseteq_size in Hsub. rewrite size_union, !size_singleton in Hsub; [lia|].
    intros z ->%elem_of_singleton ?%elem_of_singleton. done.
Qed.

Lemma add_email_elem em ip acc ip' x :
  x ∈ default ∅ (add_email em ip acc !! ip') ↔
  x ∈ default ∅ (acc !! ip') ∨ (ip' = ip ∧ x = em).
Proof.
  unfold add_email. destruct (decide (ip' = ip)) as [->|Hne].
  - rewrite lookup_insert_eq. cbn. rewrite elem_of_union, elem_of_singleton. tauto.
  - rewrite lookup_insert_ne by done. tauto.
Qed.

Lemma set_fold_add_email_elem em (X : gset string) acc ip' x :
  x ∈ default ∅ (set_fold (add_email em) acc X !! ip') ↔
  x ∈ default ∅ (acc !! ip') ∨ (ip' ∈ X ∧ x = em).
Proof.
  revert ip' x.
  apply (set_fold_ind_L
           (λ r Y, ∀ ip' x, x ∈ default ∅ (r !! ip') ↔
                            x ∈ default ∅ (acc !! ip') ∨ (ip' ∈ Y ∧ x = em))).
  - intros ip' x. split; [tauto|]. intros [?|[?%elem_of_empty _]]; done.
  - intros ip Y r Hfresh IH ip' x.
    rewrite add_email_elem, IH, elem_of_union, elem_of_singleton. tauto.
Qed.

Lemma ip_to_emails_elem tr ip em :
  em ∈ default ∅ (ip_to_emails tr !! ip) ↔ uses_ip tr em ip.
Proof.
  unfold ip_to_emails, uses_ip. revert ip em.
  apply (map_fold_weak_ind
           (λ acc (m : gmap string UserInfo.t),
              ∀ ip em, em ∈ default ∅ (acc !! ip) ↔
                ∃ key u, m !! key = Some u ∧ UserInfo.email u = em ∧
                         ip ∈ UserInfo.get_recent_ips (window_seconds tr) 1 u)).
  - intros ip em. rewrite lookup_empty. cbn. split; [by intros ?%elem_of_empty|].
    intros (key & u & Hu & _). by rewrite lookup_empty in Hu.
  - intros key u m acc Hfresh IH ip em.
    rewrite set_fold_add_email_elem, IH. split.
    + intros [(key' & u' & Hu' & Hrest)|[Hip ->]].
      * exists key', u'. split; [|done].
        rewrite lookup_insert_ne; [done|]. intros ->. congruence.
      * exists key, u. by rewrite lookup_insert_eq.
    + intros (key' & u' & Hu' & Hem & Hip).
      destruct (decide (key' = key)) as [->|Hne].
      * rewrite lookup_insert_eq in Hu'. injection Hu' as <-. right. done.
      * rewrite lookup_insert_ne in Hu' by done. left. eauto.
Qed.

(** X14: [get_shared_ips] lists an address exactly when two users with
    different emails both have it among their recent addresses, and then
    lists with it the emails of all the users that have. *)
Theorem get_shared_ips_exact tr ip :
  (ip ∈ dom (get_shared_ips tr) ↔
   ∃ em1 em2, em1 ≠ em2 ∧ uses_ip tr em1 ip ∧ uses_ip tr em2 ip) ∧
  (∀ emails, get_shared_ips tr !! ip = Some emails →
             ∀ em, em ∈ emails ↔ uses_ip tr em ip).
Proof.
  assert (∀ emails, ip_to_emails tr !! ip = Some emails →
                    ∀ em, em ∈ emails ↔ uses_ip tr em ip) as Hel.
  { intros emails Hl em. rewrite <- ip_to_emails_elem, Hl. done. }
  split.
  - rewrite elem_of_dom. unfold get_shared_ips. split.
    + intros [emails [Hl Hsz]%map_lookup_filter_Some]. cbn [snd] in Hsz.
      apply size_gt_1 in Hsz as (x & y & Hne & Hx & Hy).
      exists x, y. split_and!; [done|by apply (Hel emails)..].
    + intros (em1 & em2 & Hne & H1 & H2).
      destruct (ip_to_emails tr !! ip) as [emails|] eqn:Hl.
      * exists emails. apply map_lookup_filter_Some. split; [done|]. cbn [snd].
        apply size_gt_1. exists em1, em2. split_and!; [done|by apply (Hel emails)..].
      * apply ip_to_emails_elem in H1. rewrite Hl in H1. by apply elem_of_empty in H1.
  - intros emails [Hl _]%map_lookup_filter_Some. by apply Hel.
Qed.

End MoreTrackerFacts.

(** * Theorems on the user-limit directory *)

Section PanelFacts.
Import PanelAPI MoreSpec.

Lemma fetch_pages_collects fetch pages final :
  ∀ start acc fuel,
    (∀ k users, pages !! k = Some users →
                full_page (fetch (start + k * page_size)%nat) users) →
    closes (fetch (start + length pages * page_size)%nat) final →
    (length pages < fuel)%nat →
    fetch_pages fetch fuel start acc = Some (acc ++ concat pages ++ final).
Proof.
  induction pages as [|page pages IH]; intros start acc fuel Hfull Hclose Hfuel.
  - destruct fuel as [|fuel]; [cbn in Hfuel; lia|].
    cbn [length concat app] in *. rewrite Nat.add_0_r in Hclose. cbn [fetch_pages].
    unfold closes in Hclose.
    destruct (fetch start) as [|status users]; [by rewrite Hclose, app_nil_r|].
    destruct (decide (status = 200)) as [->|Hne].
    + destruct Hclose as [-> Hshort]. rewrite decide_False by (intros ?; done).
      destruct users as [|r users]; [by rewrite app_nil_r|].
      by rewrite decide_True.
    + rewrite decide_True by done. by rewrite Hclose, app_nil_r.
  - destruct fuel as [|fuel]; [cbn in Hfuel; lia|]. cbn [length] in Hfuel.
    destruct (Hfull 0%nat page eq_refl) as [Hreply Hlen].
    rewrite Nat.add_0_r in Hreply. cbn [fetch_pages]. rewrite Hreply.
    rewrite decide_False by (intros ?; done).
    destruct page as [|r page]; [unfold page_size in Hlen; cbn in Hlen; lia|].
    rewrite decide_False by lia.
    rewrite (IH (start + page_size)%nat (acc ++ r :: page) fuel).
    + cbn [concat]. by rewrite <- !app_assoc.
    + intros k users Hk. specialize (Hfull (S k) users Hk).
      replace (start + page_size + k * page_size)%nat
        with (start + S k * page_size)%nat by (unfold page_size; lia). done.
    + cbn [length] in Hclose.
      replace (start + page_size + length pages * page_size)%nat
        with (start + S (length pages) * page_size)%nat
        by (unfold page_size; lia). done.
    + lia.
Qed.

(** The cache after the users [all_users], from the cache [cache]. *)
Lemma store_users_lookup all_users cache id :
  id ≠ EmptyString →
  foldl store_user cache all_users !! id =
  match last_record id all_users with
  | Some u => Some u
  | None => cache !! id
  end.
Proof.
  intros Hid. revert cache. unfold last_record.
  induction all_users as [|r all_users IH] using rev_ind; intros cache; [done|].
  rewrite foldl_app, filter_app. cbn [foldl]. unfold store_user at 1.
  destruct (decide (raw_id r = id)) as [<-|Hne].
  - rewrite filter_cons_True, filter_nil, last_snoc by done. cbn.
    rewrite decide_False by done. by rewrite lookup_insert_eq.
  - rewrite filter_cons_False, filter_nil, app_nil_r by done.
    destruct (decide (raw_id r = EmptyString)); [apply IH|].
    rewrite lookup_insert_ne by done. apply IH.
Qed.

Lemma store_users_no_empty_id all_users cache :
  cache !! EmptyString = None →
  foldl store_user cache all_users !! EmptyString = None.
Proof.
  revert cache. induction all_users as [|r all_users IH]; intros cache Hc; [done|].
  cbn [foldl]. apply IH. unfold store_user.
  destruct (decide (raw_id r = EmptyString)); [done|].
  by rewrite lookup_insert_ne.
Qed.

(** X15: the loader asks for the pages at offsets 0, 500, 1000, ... as long
    as it gets full pages with status 200, and ends with the first other
    reply; it then returns, with the directory marked loaded at [time_now]
    and holding, under each non-empty id, the last record listed with that
    id on the collected pages (limit 1 when the record has no
    [hwidDeviceLimit]). *)
Theorem load_all_users_collects fetch pages final fuel time_now p :
  (∀ k users, pages !! k = Some users →
              full_page (fetch (k * page_size)%nat) users) →
  closes (fetch (length pages * page_size)%nat) final →
  (length pages < fuel)%nat →
  ∃ p' n,
    load_all_users_sync fetch fuel time_now p = Some (p', n) ∧
    is_loaded p' = true ∧ _last_load_time p' = time_now ∧
    n = user_count p' ∧
    get_user_info EmptyString p' = None ∧
    ∀ id, id ≠ EmptyString →
          get_user_info id p' = last_record id (concat pages ++ final).
Proof.
  intros Hfull Hclose Hfuel. unfold load_all_users_sync.
  rewrite (fetch_pages_collects fetch pages final 0 [] fuel); [|done..].
  cbn [app]. eexists _, _. split_and!; [done..| |].
  - by apply store_users_no_empty_id.
  - intros id Hid. unfold get_user_info. cbn [_users].
    rewrite store_users_lookup by done.
    by destruct (last_record id _).
Qed.

(** X16: when the first request fails (an exception, a status other than
    200, or an empty list), the load still returns and marks the directory
    loaded, with no user in it: whatever the directory held before, every
    limit is then unknown and the evaluation of an entry changes nothing. *)
Theorem load_failure_empties_directory fetch fuel time_now p :
  closes (fetch 0%nat) [] →
  (0 < fuel)%nat →
  ∃ p',
    load_all_users_sync fetch fuel time_now p = Some (p', 0%nat) ∧
    is_loaded p' = true ∧
    (∀ id, get_limit id p' = None) ∧
    ∀ cfg user ts s, Server._check_concurrent_ips cfg p' user ts s = Done s.
Proof.
  intros Hclose Hfuel. unfold load_all_users_sync.
  rewrite (fetch_pages_collects fetch [] [] 0 [] fuel); [|by intros k users Hk; rewrite lookup_nil in Hk|done..].
  cbn [app concat foldl]. eexists. split_and!; [done..| |].
  - intros id. unfold get_limit. cbn. by rewrite lookup_empty.
  - intros cfg user ts s. unfold Server._check_concurrent_ips, get_limit. cbn.
    rewrite lookup_empty. by case_decide.
Qed.

(** X17: when the panel answers every request with a full page, the loader
    never ends: no number of iterations gives a result. *)
Theorem load_never_ends_on_full_pages fetch time_now p :
  (∀ start, ∃ users, full_page (fetch start) users) →
  ∀ fuel, load_all_users_sync fetch fuel time_now p = None.
Proof.
  intros Hfull fuel. unfold load_all_users_sync.
  assert (∀ start acc, fetch_pages fetch fuel start acc = None) as ->; [|done].
  induction fuel as [|fuel IH]; intros start acc; [done|].
  cbn [fetch_pages]. destruct (Hfull start) as (users & -> & Hlen).
  rewrite decide_False by (intros ?; done).
  destruct users as [|r users]; [unfold page_size in Hlen; cbn in Hlen; lia|].
  rewrite decide_False by lia. apply IH.
Qed.

End PanelFacts.

(** * Theorems on the framing *)

Section FramingFacts.
Import TCPLogServer.











End FramingFacts.

(** * Further theorems on the detection engine *)

Section MoreEngineFacts.
Import Server EngineSpec MoreSpec.
Variable cfg : Config.

(** ** The state of the violators *)

Lemma check_concurrent_ips_triggers_kept panel user ts s em :
  is_Some (_user_triggers s !! em) →
  is_Some (_user_triggers (state_of (_check_concurrent_ips cfg panel user ts s)) !! em).
Proof.
  intros Hs. unfold _check_concurrent_ips.
  repeat (case_decide || case_match); simpl_state; try done;
    (destruct (decide (em = UserInfo.email user)) as [->|Hne];
     [by rewrite lookup_insert_eq|by rewrite lookup_insert_ne]).
Qed.

Lemma check_concurrent_ips_violators_have_state panel user ts s :
  violators_have_state s →
  violators_have_state (state_of (_check_concurrent_ips cfg panel user ts s)).
Proof.
  intros Hs em Hin.
  pose proof (check_concurrent_ips_triggers_kept panel user ts s em) as Htr.
  destruct (check_concurrent_ips_shape cfg panel user ts s)
    as (_ & Hother & Htrig & [(_ & Hv & Hf & Hi & _)|((limit & Hover & Hz & _) & Hv & Hcase)]).
  { rewrite Hv in Hin. rewrite Hf, Hi. destruct (Hs em Hin) as (? & ? & ?). auto. }
  destruct (decide (em = UserInfo.email user)) as [->|Hne].
  - rewrite (Htrig limit Hover Hz). split_and!; [| |done].
    + destruct Hcase as [(Hold & -> & _)|(_ & -> & _)].
      * by destruct (Hs _ Hold).
      * by rewrite lookup_insert_eq.
    + destruct Hcase as [(Hold & _ & [(ips & _ & -> & _)|(Hnone & _)])|(_ & _ & -> & _)].
      * by rewrite lookup_insert_eq.
      * destruct (Hs _ Hold) as (_ & [? ?] & _). congruence.
      * by rewrite lookup_insert_eq.
  - destruct (Hother em Hne) as (Hv' & Hi' & Hf' & Ht').
    rewrite Hi', Hf', Ht'. apply Hs. by apply Hv'.
Qed.

Lemma check_limits_violators_have_state w panel now order s :
  violators_have_state s →
  violators_have_state (state_of (_check_limits cfg w panel now order s).1).
Proof.
  apply (check_limits_keeps cfg violators_have_state).
  - intros em s1 Hs1 em' Hin.
    destruct (check_violator_shape cfg w panel now em s1)
      as (_ & Htr & Hcase).
    assert (em' ∈ _current_violators s1 ∧
            _violator_first_seen (state_of (check_violator cfg w panel now em s1).1) !! em'
            = _violator_first_seen s1 !! em' ∧
            _violator_ips (state_of (check_violator cfg w panel now em s1).1) !! em'
            = _violator_ips s1 !! em') as (Hin1 & -> & ->).
    { destruct Hcase as [(Hv & -> & -> & _)|(Hv & -> & -> & _)]; rewrite Hv in Hin.
      - done.
      - apply elem_of_difference in Hin as [Hin Hne%not_elem_of_singleton].
        by rewrite !lookup_delete_ne. }
    destruct (Hs1 em' Hin1) as (? & ? & Ht). split_and!; [done..|].
    destruct Htr as [->|(l & _ & _ & ->)]; [done|].
    destruct (decide (em' = em)) as [->|Hne];
      [by rewrite lookup_insert_eq|by rewrite lookup_insert_ne].
  - intros s1 Hs1 em Hin. unfold sweep_triggers in *. simpl_state.
    destruct (Hs1 em Hin) as (? & ? & [l Hl]). split_and!; [done..|].
    rewrite map_lookup_imap, Hl. cbn. unfold swept. by rewrite decide_True.
Qed.

(** X19: in every reachable state every email of the violator set has a
    first-seen time, a set of addresses and a trigger list. *)
Theorem reachable_violators_have_state s :
  reachable cfg s → violators_have_state s.
Proof.
  induction 1 as [|s a _ IH _].
  - intros em Hin. cbn in Hin. by apply elem_of_empty in Hin.
  - destruct a as [panel node_name entry|panel w now order|]; cbn [exec].
    + rewrite on_entry_eq. by apply check_concurrent_ips_violators_have_state.
    + by apply check_limits_violators_have_state.
    + done.
Qed.

(** ** The whitelist *)

Lemma check_concurrent_ips_whitelisted panel user ts s :
  UserInfo.email user ∈ _whitelist_emails cfg →
  _check_concurrent_ips cfg panel user ts s = Done s.
Proof. intros Hwl. unfold _check_concurrent_ips. by rewrite decide_True. Qed.

Lemma check_violator_untouched w panel now em em' s :
  untouched em s → untouched em (state_of (check_violator cfg w panel now em' s).1).
Proof.
  intros (Hv & Ht & Hf & Hi). unfold untouched.
  destruct (check_violator_shape cfg w panel now em' s) as (_ & Htr & Hcase).
  assert (_user_triggers (state_of (check_violator cfg w panel now em' s).1) !! em = None)
    as Ht'.
  { destruct Htr as [->|(l & Hl & _ & ->)]; [done|].
    rewrite lookup_insert_ne; [done|]. intros ->. congruence. }
  destruct Hcase as [(-> & -> & -> & _)|(-> & -> & -> & _)]; [done|].
  split_and!; [|done|apply lookup_delete_None; by right..].
  by intros [? _]%elem_of_difference.
Qed.

(** X21: a whitelisted email never gets any detection state: in every
    reachable state it is not a violator and has no trigger list, no
    first-seen time and no recorded addresses. *)
Theorem whitelisted_never_tracked s em :
  reachable cfg s → em ∈ _whitelist_emails cfg → untouched em s.
Proof.
  intros Hr Hwl. induction Hr as [|s a _ IH _].
  - unfold untouched. cbn. rewrite !lookup_empty. split_and!; [|done..].
    apply not_elem_of_empty.
  - destruct a as [panel node_name entry|panel w now order|]; cbn [exec].
    + rewrite on_entry_eq.
      set (user := (UserTracker.process_entry entry node_name (tracker s)).2).
      set (s0 := set_tracker _ s).
      assert (untouched em s0) as IH0 by done.
      destruct (decide (UserInfo.email user = em)) as [Heq|Hne].
      * rewrite check_concurrent_ips_whitelisted; [done|]. by rewrite Heq.
      * destruct (check_concurrent_ips_shape cfg panel user (timestamp entry) s0)
          as (_ & Hother & _).
        destruct (Hother em (not_eq_sym Hne)) as (Hv & Hi & Hf & Ht).
        destruct IH0 as (? & ? & ? & ?). unfold untouched.
        rewrite Hi, Hf, Ht. split_and!; [|done..]. by rewrite Hv.
    + apply (check_limits_keeps cfg (untouched em)); [| |done].
      * intros em' s1. apply check_violator_untouched.
      * intros s1 (? & Ht & ? & ?). unfold untouched, sweep_triggers. simpl_state.
        split_and!; [done| |done..]. by rewrite map_lookup_imap, Ht.
    + done.
Qed.

(** ** Sweeps *)



(** X23: after a sweep that completes with the directory loaded, every
    trigger list kept for an email that is not a violator is non-empty and
    holds only timestamps not older than [now - TRIGGER_PERIOD]. *)
Theorem sweep_prunes_idle_triggers w panel now order s em triggers :
  PanelAPI.is_loaded panel = true →
  is_done (_check_limits cfg w panel now order s).1 = true →
  _user_triggers (state_of (_check_limits cfg w panel now order s).1) !! em
  = Some triggers →
  em ∉ _current_violators (state_of (_check_limits cfg w panel now order s).1) →
  triggers ≠ [] ∧
  Forall (λ t, now - timedelta (_trigger_period cfg) ≤ t) triggers.
Proof.
  intros Hl. unfold _check_limits. rewrite Hl.
  destruct (violators_loop cfg w panel now order s) as [[s1|s1] evs]; [|done].
  intros _. unfold sweep_triggers. simpl_state.
  rewrite map_lookup_imap. intros Hs Hout.
  destruct (_user_triggers s1 !! em) as [l|]; [|done]. cbn in Hs.
  unfold swept in Hs. rewrite decide_False in Hs by done.
  pose proof (prune_Forall (now - timedelta (_trigger_period cfg)) l) as Hall.
  destruct (prune _ l) as [|t kept]; [done|]. by injection Hs as <-.
Qed.

(** X24: a violator that the tracker no longer holds is out of reach of the
    sweeps: whatever the time, a sweep leaves it in the violator set with
    its triggers, first-seen time and addresses as they are. *)
Theorem untracked_violator_stays w panel now order s em :
  em ∈ _current_violators s →
  UserTracker.get_user em (tracker s) = None →
  em ∈ _current_violators (state_of (_check_limits cfg w panel now order s).1) ∧
  same_at em s (state_of (_check_limits cfg w panel now order s).1).
Proof.
  intros Hin Hnone.
  apply (check_limits_keeps cfg
           (λ s1, tracker s1 = tracker s ∧
                  (em ∈ _current_violators s1 ∧ same_at em s s1))).
  - intros em' s1 (Ht & Hin1 & Hv & Hi & Hf & Htr).
    destruct (check_violator_shape cfg w panel now em' s1) as (Ht' & Htr' & Hcase).
    split; [congruence|]. unfold same_at.
    destruct (decide (em' = em)) as [->|Hne].
    + destruct Hcase as [(-> & -> & -> & _)|(_ & _ & _ & [[u Hu] _])].
      2:{ rewrite Ht, Hnone in Hu. done. }
      destruct Htr' as [->|(l & _ & [u Hu] & _)]; [done|].
      rewrite Ht, Hnone in Hu. done.
    + assert (_user_triggers (state_of (check_violator cfg w panel now em' s1).1) !! em
              = _user_triggers s !! em) as ->.
      { destruct Htr' as [->|(l & _ & _ & ->)]; [done|].
        by rewrite lookup_insert_ne. }
      destruct Hcase as [(-> & -> & -> & _)|(-> & -> & -> & _)]; [done|].
      rewrite !lookup_delete_ne by done.
      split_and!; [|split|done..].
      * apply elem_of_difference. split; [done|]. by apply not_elem_of_singleton.
      * intros [? _]%elem_of_difference. by apply Hv.
      * intros _. apply elem_of_difference. split; [done|].
        by apply not_elem_of_singleton.
  - intros s1 (Ht & Hin1 & Hv & Hi & Hf & Htr). unfold sweep_triggers, same_at.
    simpl_state. split_and!; [done..|].
    rewrite map_lookup_imap, <- Htr.
    destruct (_user_triggers s1 !! em); [|done]. cbn. unfold swept.
    by rewrite decide_True.
  - unfold same_at. by split_and!.
Qed.

(** ** Ban escalation *)

Lemma add_to_banlist_events w panel user n limit duration s ev :
  ev ∈ (_add_to_banlist cfg w panel user n limit duration s).2 →
  event_email ev = UserInfo.email user ∧ is_Some (db w).
Proof.
  unfold _add_to_banlist.
  repeat (case_match; simplify_eq); cbn [snd]; intros Hin; list_cases Hin;
    subst; done.
Qed.

Lemma check_violator_events w panel now em s ev :
  ev ∈ (check_violator cfg w panel now em s).2 →
  ∃ user first_seen,
    UserTracker.get_user em (tracker s) = Some user ∧
    event_email ev = UserInfo.email user ∧ is_Some (db w) ∧
    _violator_first_seen s !! em = Some first_seen ∧
    timedelta (_banlist_threshold cfg) ≤ now - first_seen.
Proof.
  unfold check_violator, check_ban.
  destruct (UserTracker.get_user em (tracker s)) as [user|];
    [|by intros ?%elem_of_nil].
  assert (∀ s1 : t,
    _violator_first_seen s1 = _violator_first_seen s →
    ev ∈ (match _violator_first_seen s1 !! em with
          | Some first_seen =>
              if decide (timedelta (_banlist_threshold cfg) ≤ now - first_seen)
              then _add_to_banlist cfg w panel user
                     (size (default ∅ (_violator_ips s1 !! em)))
                     (default 0 (_user_limits s1 !! em))
                     ((now - first_seen) `quot` 1000000) s1
              else (Done s1, [])
          | None => (Done s1, [])
          end).2 →
    ∃ user0 first_seen,
      Some user = Some user0 ∧ event_email ev = UserInfo.email user0 ∧
      is_Some (db w) ∧ _violator_first_seen s !! em = Some first_seen ∧
      timedelta (_banlist_threshold cfg) ≤ now - first_seen) as Hban.
  { intros s1 ->. destruct (_violator_first_seen s !! em) as [fs|];
      [|by intros ?%elem_of_nil].
    case_decide; [|by intros ?%elem_of_nil].
    intros [? ?]%add_to_banlist_events. eauto 10. }
  destruct (_user_triggers s !! em) as [l|]; [|by apply Hban].
  case_decide; [by intros ?%elem_of_nil|]. by apply Hban.
Qed.

Lemma violators_loop_events w panel now order s ev :
  ev ∈ (violators_loop cfg w panel now order s).2 →
  ∃ em user first_seen,
    em ∈ order ∧
    UserTracker.get_user em (tracker s) = Some user ∧
    event_email ev = UserInfo.email user ∧ is_Some (db w) ∧
    _violator_first_seen s !! em = Some first_seen ∧
    timedelta (_banlist_threshold cfg) ≤ now - first_seen.
Proof.
  revert s. induction order as [|e rest IH]; intros s; [by intros ?%elem_of_nil|].
  cbn [violators_loop].
  pose proof (check_violator_events w panel now e s ev) as Hhere.
  destruct (check_violator_shape cfg w panel now e s) as (Ht & _ & Hcase).
  destruct (check_violator cfg w panel now e s) as [[s1|s1] evs]; cbn [fst snd state_of] in *.
  2:{ intros (user & fs & ?)%Hhere. exists e, user, fs. split; [by left|done]. }
  specialize (IH s1).
  destruct (violators_loop cfg w panel now rest s1) as [o evs']. cbn [snd] in *.
  intros [Hin|Hin]%elem_of_app.
  - destruct (Hhere Hin) as (user & fs & ?). exists e, user, fs. split; [by left|done].
  - destruct (IH Hin) as (em & user & fs & Hem & Hu & He & Hdb & Hfs & Hthr).
    exists em, user, fs. split_and!; [by right|congruence|done..| |done].
    destruct Hcase as [(_ & Hf & _)|(_ & Hf & _)]; rewrite Hf in Hfs; [done|].
    by apply lookup_delete_Some in Hfs as [_ ?].
Qed.

(** X25: a sweep calls the ban list or the notifier only about an email of
    the violator set that has been a violator for at least
    [BANLIST_THRESHOLD] seconds at the time of the sweep. *)
Theorem sweep_bans_only_after_threshold w panel now order s ev :
  reachable cfg s →
  ev ∈ (_check_limits cfg w panel now order s).2 →
  event_email ev ∈ order ∧
  ∃ first_seen,
    _violator_first_seen s !! event_email ev = Some first_seen ∧
    timedelta (_banlist_threshold cfg) ≤ now - first_seen.
Proof.
  intros [Hk _]%reachable_invariants. unfold _check_limits.
  destruct (PanelAPI.is_loaded panel); [|by intros ?%elem_of_nil].
  pose proof (violators_loop_events w panel now order s ev) as Hloop.
  assert (ev ∈ (violators_loop cfg w panel now order s).2 →
          event_email ev ∈ order ∧
          ∃ first_seen,
            _violator_first_seen s !! event_email ev = Some first_seen ∧
            timedelta (_banlist_threshold cfg) ≤ now - first_seen) as Hgoal.
  { intros (em & user & fs & Hem & Hu & -> & _ & Hfs & Hthr)%Hloop.
    rewrite (Hk em user Hu). eauto. }
  by destruct (violators_loop cfg w panel now order s) as [[s1|s1] evs].
Qed.

(** X26: ban escalation never touches the tracker, the triggers, the
    violator set, the first-seen times or the recorded addresses, also when
    the ban list or the notifier fails; and when the lookup of the active
    ban raises, it changes nothing at all and issues no call. *)
Theorem add_to_banlist_keeps_detection_state w panel user n limit duration s :
  let r := _add_to_banlist cfg w panel user n limit duration s in
  tracker (state_of r.1) = tracker s ∧
  _user_triggers (state_of r.1) = _user_triggers s ∧
  _violator_first_seen (state_of r.1) = _violator_first_seen s ∧
  _violator_ips (state_of r.1) = _violator_ips s ∧
  _current_violators (state_of r.1) = _current_violators s ∧
  (is_done r.1 = false → state_of r.1 = s ∧ r.2 = []) ∧
  (is_done r.1 = true → is_Some (db w) →
   UserInfo.email user ∈ _confirmed_violators (state_of r.1)).
Proof.
  intros r. subst r.
  destruct (add_to_banlist_frame cfg w panel user n limit duration s)
    as (? & ? & ? & ? & ? & _).
  split_and!; [done..| |].
  - unfold _add_to_banlist. repeat case_match; simplify_eq; done.
  - unfold _add_to_banlist. intros Hd [database Hdb]. rewrite Hdb in *.
    repeat case_match; simplify_eq; simpl_state; try done;
      apply elem_of_union; right; by apply elem_of_singleton.
Qed.

(** ** Subnet grouping *)

(** X27: with [SUBNET_GROUPING] on, an entry of a user whose concurrent
    addresses all lie in one /24 and whose limit is not negative is never a
    trigger: the evaluation returns and leaves the triggers and the violator
    state as they are. *)
Theorem same_subnet_never_triggers panel user ts s :
  _subnet_grouping cfg = true →
  (∀ ip1 ip2, ip1 ∈ concurrent_ips cfg user → ip2 ∈ concurrent_ips cfg user →
              get_subnet_24 ip1 = get_subnet_24 ip2) →
  (∀ limit, PanelAPI.get_limit (UserInfo.email user) panel = Some limit →
            0 ≤ limit) →
  is_done (_check_concurrent_ips cfg panel user ts s) = true ∧
  _user_triggers (state_of (_check_concurrent_ips cfg panel user ts s))
  = _user_triggers s ∧
  _current_violators (state_of (_check_concurrent_ips cfg panel user ts s))
  = _current_violators s ∧
  _violator_first_seen (state_of (_check_concurrent_ips cfg panel user ts s))
  = _violator_first_seen s ∧
  _violator_ips (state_of (_check_concurrent_ips cfg panel user ts s))
  = _violator_ips s.
Proof.
  intros Hg Hsame Hlim. unfold _check_concurrent_ips. cbn zeta.
  case_decide; [done|].
  destruct (PanelAPI.get_limit (UserInfo.email user) panel) as [limit|] eqn:Hl;
    [|done].
  case_decide; [done|].
  rewrite decide_False; [done|].
  specialize (Hlim limit eq_refl). unfold ip_count. rewrite Hg.
  pose proof (group_ips_by_subnet_same _ Hsame). lia.
Qed.

(** ** The violators endpoint *)

Lemma api_violators_lookup s em :
  _violator_ips (_api_violators_state cfg s) !! em =
  touched_ips cfg s em <$> _violator_ips s !! em.
Proof.
  unfold _api_violators_state. simpl_state. rewrite map_lookup_imap.
  by destruct (_violator_ips s !! em).
Qed.

(** X28: a call of [GET /api/violators] is not read-only: it adds to the
    addresses recorded for every tracked violator the addresses that are
    concurrent at the call, so that afterwards the recorded addresses of
    every violator cover its concurrent ones; it removes no recorded
    address, adds no key, and changes nothing else of the state. *)
Theorem api_violators_records_concurrent s :
  violators_have_ips s →
  violator_ips_cover_recent cfg (_api_violators_state cfg s) ∧
  (∀ em ips, _violator_ips s !! em = Some ips →
     ∃ ips', _violator_ips (_api_violators_state cfg s) !! em = Some ips' ∧
             ips ⊆ ips') ∧
  dom (_violator_ips (_api_violators_state cfg s)) = dom (_violator_ips s) ∧
  set_violator_ips (_violator_ips s) (_api_violators_state cfg s) = s.
Proof.
  intros Hvi. split_and!.
  - intros em user Hin Hu. rewrite api_violators_lookup.
    change (em ∈ _current_violators s) in Hin.
    change (UserTracker.get_user em (tracker s) = Some user) in Hu.
    destruct (Hvi em Hin) as [ips Hips]. rewrite Hips. cbn.
    unfold touched_ips. rewrite decide_True, Hu by done.
    apply (union_subseteq_r ips).
  - intros em ips Hips. rewrite api_violators_lookup, Hips. eexists. split; [done|].
    unfold touched_ips. case_decide; [|done]. case_match; [|done].
    apply union_subseteq_l.
  - apply set_eq. intros em. rewrite !elem_of_dom, api_violators_lookup.
    by rewrite fmap_is_Some.
  - by destruct s.
Qed.

(** ** The cleanup of the tracker *)

Lemma exec_window s a :
  UserTracker.window_seconds (tracker (exec cfg s a)) =
  UserTracker.window_seconds (tracker s).
Proof.
  destruct a as [panel node_name entry|panel w now order|]; cbn [exec].
  - rewrite on_entry_eq.
    by destruct (check_concurrent_ips_shape cfg panel
                   (UserTracker.process_entry entry node_name (tracker s)).2
                   (timestamp entry)
                   (set_tracker
                      (UserTracker.process_entry entry node_name (tracker s)).1 s))
      as [-> _].
  - by rewrite check_limits_tracker.
  - simpl_state. unfold UserTracker.cleanup_old_data.
    by destruct (UserTracker._latest_timestamp (tracker s)).
Qed.

Lemma reachable_window s :
  reachable cfg s →
  UserTracker.window_seconds (tracker s) = _concurrent_window cfg.
Proof. induction 1 as [|s a _ IH _]; [done|]. by rewrite exec_window. Qed.

(** X29: the periodic cleanup of the tracker never changes what detection
    sees: every user it keeps has the same concurrent addresses, and the
    same address count, as before. *)
Theorem tracker_cleanup_keeps_concurrent s em user' :
  reachable cfg s →
  UserTracker.get_user em (tracker (exec cfg s TrackerCleanup)) = Some user' →
  ∃ user,
    UserTracker.get_user em (tracker s) = Some user ∧
    concurrent_ips cfg user' = concurrent_ips cfg user ∧
    ip_count cfg user' = ip_count cfg user.
Proof.
  intros Hr Hu. cbn [exec] in Hu. simpl_state. unfold UserTracker.get_user in *.
  apply cleanup_old_data_lookup in Hu as (u0 & Hu0 & Hcase).
  exists u0. split; [done|].
  assert (concurrent_ips cfg user' = concurrent_ips cfg u0) as Heq.
  { destruct Hcase as [->| ->]; [done|]. unfold concurrent_ips.
    rewrite (reachable_window s Hr). by apply cleanup_old_ips_recent_eq. }
  split; [done|]. unfold ip_count. by rewrite Heq.
Qed.

End MoreEngineFacts.

(** * Further theorems on the token check *)

Section MoreApiFacts.
Import Api ApiSpec.

Lemma substring_all s : String.substring 0 (String.length s) s = s.
Proof. induction s as [|c s IH]; [done|]. cbn. by rewrite IH. Qed.

Lemma token_of_bearer request tok :
  header_get "Authorization" (headers request) = String.append "Bearer " tok →
  token_of request = tok.
Proof.
  intros Hh. unfold token_of. rewrite Hh.
  change (String.append "Bearer " tok)
    with (String "B" (String "e" (String "a" (String "r" (String "e"
           (String "r" (String " " tok))))))).
  cbn. assert (String.prefix EmptyString tok = true) as -> by (by destruct tok).
  rewrite Nat.sub_0_r. apply substring_all.
Qed.

(** X30: a request whose [Authorization] header is [Bearer <token>] is
    judged by that token alone, whatever its query string holds: it is
    handled, once and unchanged, when the token is the configured one, and
    answered 401 without the handler otherwise. *)
Theorem bearer_token_decides cfg request handler tok :
  api_token cfg ≠ EmptyString →
  header_get "Authorization" (headers request) = String.append "Bearer " tok →
  _auth_middleware cfg request handler =
  if decide (tok = api_token cfg) then (handler request, [request])
  else (unauthorized, []).
Proof.
  intros Hcfg Hh. unfold _auth_middleware.
  rewrite decide_True, (token_of_bearer request tok Hh) by done.
  by repeat case_decide.
Qed.

End MoreApiFacts.

(** * Further scenarios *)

Section MoreTrackerScenarios.
Import TrackerSpec MoreSpec.

Lemma recent_ip_count_grouped_witness :
  (UserInfo.recent_ip_count 2 1 true neighbours_user ≤ 1)%nat.
Proof.
  refine (proj2 (recent_ip_count_grouped neighbours_user 2 1) _).
  assert (UserInfo.get_recent_ips 2 1 neighbours_user = {["10.0.0.1"; "10.0.0.2"]})
    as -> by (vm_compute; reflexivity).
  intros ip1 ip2 [->%elem_of_singleton| ->%elem_of_singleton]%elem_of_union
    [->%elem_of_singleton| ->%elem_of_singleton]%elem_of_union; reflexivity.
Defined.

Lemma cleanup_old_ips_exact_witness :
  401000000 - timedelta 2 ≤ IPStats.last_seen (IPStats.mk 401000000 1).
Proof.
  refine (proj1 (proj2 (cleanup_old_ips_exact recent_user 2))
            401000000 "10.0.0.2" (IPStats.mk 401000000 1) _ _);
    vm_compute; reflexivity.
Defined.

Lemma cleanup_old_data_exact_witness :
  size (UserTracker._users two_users_tracker) =
  (size (UserTracker._users (UserTracker.cleanup_old_data two_users_tracker).1) +
   (UserTracker.cleanup_old_data two_users_tracker).2)%nat.
Proof.
  refine (proj2 (cleanup_old_data_exact two_users_tracker 401000000 _)).
  vm_compute. reflexivity.
Defined.

Lemma recent_requests_bounded_witness : requests_ok recent_user.
Proof.
  apply (recent_requests_bounded two_users 2 300 "a@x").
  vm_compute. reflexivity.
Defined.

Lemma request_count_counts_entries_witness :
  stored_count two_users_tracker "a@x" "10.0.0.1" =
  Z.of_nat (length (pair_timestamps "a@x" "10.0.0.1" two_users)).
Proof.
  refine (proj2 (proj2 (request_count_counts_entries two_users 2 300 "a@x"
                          "10.0.0.1")) _).
  repeat constructor; by intros [].
Defined.

Lemma get_shared_ips_exact_witness :
  "10.0.0.1" ∈ dom (UserTracker.get_shared_ips two_users_tracker).
Proof.
  refine (proj2 (proj1 (get_shared_ips_exact two_users_tracker "10.0.0.1")) _).
  exists "a@x", "b@x". split_and!; [discriminate| |].
  - exists "a@x", recent_user.
    split_and!; [vm_compute; reflexivity|reflexivity|vm_compute; reflexivity].
  - eexists "b@x", _.
    split_and!; [vm_compute; reflexivity|reflexivity|vm_compute; reflexivity].
Defined.

End MoreTrackerScenarios.

Section PanelScenarios.
Import PanelAPI MoreSpec.

Lemma load_all_users_collects_witness :
  ∃ p' n,
    load_all_users_sync two_pages 2 1000 new = Some (p', n) ∧
    is_loaded p' = true ∧ _last_load_time p' = 1000 ∧
    n = user_count p' ∧
    get_user_info EmptyString p' = None ∧
    ∀ id, id ≠ EmptyString →
          get_user_info id p' =
          last_record id (concat [replicate 500 raw0] ++ [raw1]).
Proof.
  apply (load_all_users_collects two_pages [replicate 500 raw0] [raw1] 2 1000 new).
  - intros [|k] users Hk; [|by rewrite lookup_cons, lookup_nil in Hk].
    injection Hk as <-. split; reflexivity.
  - split; [reflexivity|]. unfold page_size. cbn. lia.
  - cbn. lia.
Defined.

Lemma load_failure_empties_directory_witness :
  ∃ p',
    load_all_users_sync panel_down 1 1000 EngineSpec.panel0 = Some (p', 0%nat) ∧
    is_loaded p' = true ∧
    (∀ id, get_limit id p' = None) ∧
    ∀ cfg user ts s, Server._check_concurrent_ips cfg p' user ts s = Done s.
Proof.
  apply (load_failure_empties_directory panel_down 1 1000 EngineSpec.panel0);
    [reflexivity|lia].
Defined.

Lemma load_never_ends_on_full_pages_witness :
  load_all_users_sync endless 1000 0 new = None.
Proof.
  apply (load_never_ends_on_full_pages endless 0 new).
  intros start. exists (replicate 500 raw0). split; [reflexivity|].
  rewrite length_replicate. reflexivity.
Defined.


End PanelScenarios.

Section MoreScenarios.
Import Server EngineSpec MoreSpec.

Lemma bursts_are_entries ts :
  Forall (λ a, ¬ is_sweep a) (concat (burst <$> ts)).
Proof.
  induction ts as [|t ts IH]; [constructor|].
  cbn [fmap list_fmap concat]. apply Forall_app. split; [|done].
  repeat constructor; by intros [].
Qed.

Lemma persistent_state_reachable : reachable cfg0 persistent_state.
Proof.
  apply reachable_run; [constructor|].
  apply entries_admissible, bursts_are_entries.
Qed.

Lemma whitelisted_state_reachable : reachable whitelist_cfg whitelisted_state.
Proof.
  apply reachable_run; [constructor|].
  apply entries_admissible. repeat constructor; by intros [].
Qed.

Lemma late_state_reachable : reachable cfg0 late_state.
Proof.
  unfold late_state. apply reachable_exec; [apply violator_state_reachable|exact I].
Qed.

Lemma reachable_violators_have_state_witness : violators_have_state violator_state.
Proof. apply (reachable_violators_have_state cfg0), violator_state_reachable. Defined.

Lemma whitelisted_never_tracked_witness : untouched "a@x" whitelisted_state.
Proof.
  apply (whitelisted_never_tracked whitelist_cfg whitelisted_state "a@x").
  - apply whitelisted_state_reachable.
  - vm_compute. reflexivity.
Defined.


Lemma sweep_prunes_idle_triggers_witness :
  [6000000; 11000000; 16000000; 21000000] ≠ [] ∧
  Forall (λ t, timedelta 35 - timedelta (_trigger_period cfg0) ≤ t)
    [6000000; 11000000; 16000000; 21000000].
Proof.
  apply (sweep_prunes_idle_triggers cfg0 quiet_world panel0 (timedelta 35) ["a@x"]
           violator_state "a@x").
  - reflexivity.
  - vm_compute. reflexivity.
  - vm_compute. reflexivity.
  - intros H. vm_compute in H. discriminate H.
Defined.

Lemma untracked_violator_stays_witness :
  "a@x" ∈ _current_violators
            (state_of (_check_limits cfg0 quiet_world panel0 (timedelta 5000)
                         ["a@x"] stranded_state).1) ∧
  same_at "a@x" stranded_state
    (state_of (_check_limits cfg0 quiet_world panel0 (timedelta 5000) ["a@x"]
                 stranded_state).1).
Proof.
  apply (untracked_violator_stays cfg0 quiet_world panel0 (timedelta 5000) ["a@x"]
           stranded_state "a@x"); vm_compute; reflexivity.
Defined.

Lemma sweep_bans_only_after_threshold_witness :
  ∃ ev,
    ev ∈ (_check_limits cfg0 (fresh_world (timedelta 322) true) panel0
            (timedelta 322) ["a@x"] persistent_state).2 ∧
    event_email ev ∈ ["a@x"] ∧
    ∃ first_seen,
      _violator_first_seen persistent_state !! event_email ev = Some first_seen ∧
      timedelta (_banlist_threshold cfg0) ≤ timedelta 322 - first_seen.
Proof.
  destruct (_check_limits cfg0 (fresh_world (timedelta 322) true) panel0
              (timedelta 322) ["a@x"] persistent_state).2 as [|ev evs] eqn:He.
  { vm_compute in He. discriminate He. }
  exists ev. split; [by left|].
  apply (sweep_bans_only_after_threshold cfg0 (fresh_world (timedelta 322) true)
           panel0 (timedelta 322) ["a@x"] persistent_state ev
           persistent_state_reachable).
  rewrite He. by left.
Defined.

Lemma add_to_banlist_keeps_detection_state_witness :
  state_of (_add_to_banlist cfg0 raising_world panel0 violator_user 3 2 379
              violator_state).1 = violator_state ∧
  (_add_to_banlist cfg0 raising_world panel0 violator_user 3 2 379
     violator_state).2 = [].
Proof.
  destruct (add_to_banlist_keeps_detection_state cfg0 raising_world panel0
              violator_user 3 2 379 violator_state) as (_ & _ & _ & _ & _ & H & _).
  apply H. vm_compute. reflexivity.
Defined.

Lemma same_subnet_never_triggers_witness :
  is_done (_check_concurrent_ips grouped_cfg strict_panel neighbours_user 4000000
             (new grouped_cfg)) = true ∧
  _user_triggers (state_of (_check_concurrent_ips grouped_cfg strict_panel
                              neighbours_user 4000000 (new grouped_cfg)))
  = _user_triggers (new grouped_cfg) ∧
  _current_violators (state_of (_check_concurrent_ips grouped_cfg strict_panel
                                  neighbours_user 4000000 (new grouped_cfg)))
  = _current_violators (new grouped_cfg) ∧
  _violator_first_seen (state_of (_check_concurrent_ips grouped_cfg strict_panel
                                    neighbours_user 4000000 (new grouped_cfg)))
  = _violator_first_seen (new grouped_cfg) ∧
  _violator_ips (state_of (_check_concurrent_ips grouped_cfg strict_panel
                             neighbours_user 4000000 (new grouped_cfg)))
  = _violator_ips (new grouped_cfg).
Proof.
  apply (same_subnet_never_triggers grouped_cfg strict_panel neighbours_user
           4000000 (new grouped_cfg)).
  - reflexivity.
  - assert (concurrent_ips grouped_cfg neighbours_user = {["10.0.0.1"; "10.0.0.2"]})
      as -> by (vm_compute; reflexivity).
    intros ip1 ip2 [->%elem_of_singleton| ->%elem_of_singleton]%elem_of_union
      [->%elem_of_singleton| ->%elem_of_singleton]%elem_of_union; reflexivity.
  - intros limit H. vm_compute in H. injection H as <-. lia.
Defined.

Lemma api_violators_records_concurrent_witness :
  violator_ips_cover_recent cfg0 (_api_violators_state cfg0 late_state).
Proof.
  apply (api_violators_records_concurrent cfg0 late_state).
  apply (reachable_invariants cfg0), late_state_reachable.
Defined.

Lemma tracker_cleanup_keeps_concurrent_witness :
  ∃ user,
    UserTracker.get_user "a@x" (tracker violator_state) = Some user ∧
    concurrent_ips cfg0 cleaned_user = concurrent_ips cfg0 user ∧
    ip_count cfg0 cleaned_user = ip_count cfg0 user.
Proof.
  apply (tracker_cleanup_keeps_concurrent cfg0 violator_state "a@x" cleaned_user
           violator_state_reachable).
  vm_compute. reflexivity.
Defined.

End MoreScenarios.

Section ApiScenarios.
Import Api ApiSpec.

Lemma bearer_token_decides_witness :
  _auth_middleware EngineSpec.cfg0 (bearer_request "wrong") ok_handler
  = (unauthorized, []).
Proof.
  rewrite (bearer_token_decides EngineSpec.cfg0 (bearer_request "wrong") ok_handler
             "wrong"); [reflexivity|discriminate|reflexivity].
Defined.

End ApiScenarios.
